(** * Undo/redo trade history

    A shallow embedding of the Command-pattern demos
    [src/command/modern/main.cpp] (std::variant commands, [std::vector]
    stacks) and [src/c/command.c] (tagged union, fixed arrays), and the
    properties of the undo/redo history they implement.

    Conventions of the embedding:
    - [int] is a 32-bit two's-complement integer, held in [Z]; arithmetic on
      it is written with its wrap-around ([int_wrap]).  Signed overflow is
      undefined in C and C++; the model takes the result every
      two's-complement target produces.
    - [double] is IEEE-754 binary64 with round-to-nearest-even, each
      operation rounded on its own: Rocq's primitive [float].
    - standard output is a list of strings, one per [printf]/[puts] call,
      without the trailing newline every call of the sources ends with.

    Modelled: the receiver [Portfolio] with its printer, the commands, and
    the history with its [execute], [undo], [redo] and listing, in both
    programs; the type-erased [Command] of approach 2 of the C++ program.
    Left out: approach 2 of the C program ([ErasedCommand]), whose commands
    live in a [char storage[48]] reached through pointer casts, and the
    banners of [main]. *)

From Stdlib Require Import ZArith Lia List String Ascii Bool.
From Stdlib Require Import Uint63 PrimFloat FloatOps SpecFloat FloatAxioms.
From stdpp Require Import gmap strings list pretty.

Local Open Scope Z_scope.

(** ** Machine integers and doubles *)

Definition int_wrap (z : Z) : Z := (z + 2 ^ 31) mod 2 ^ 32 - 2 ^ 31.

Definition int_range (z : Z) : Prop := - 2 ^ 31 <= z < 2 ^ 31.

(** The conversion [int -> double] of the usual arithmetic conversions; it is
    exact, every [int] being a binary64 value. *)
Definition double_of_int (q : Z) : float :=
  if q <? 0 then PrimFloat.opp (PrimFloat.of_uint63 (Uint63.of_Z (- q)))
  else PrimFloat.of_uint63 (Uint63.of_Z q).

(** ** [printf] conversions *)

Module Printf.

(** [%d] and [%zu]. *)
Definition fmt_d (z : Z) : string := pretty z.
Definition fmt_zu (n : nat) : string := pretty n.

(** [%s] of [s.c_str()]: the characters before the first NUL. *)
Fixpoint c_str (s : string) : string :=
  match s with
  | EmptyString => EmptyString
  | String c r => if Ascii.eqb c Ascii.zero then EmptyString else String c (c_str r)
  end.

(** Nearest integer to [num / den], ties to the even one. *)
Definition round_half_even (num den : Z) : Z :=
  let q := num / den in
  let r := num mod den in
  if 2 * r <? den then q
  else if den <? 2 * r then q + 1
  else if Z.even q then q else q + 1.

(** The magnitude [m * 2^e], in hundredths, rounded as [%.2f] rounds. *)
Definition hundredths (m : positive) (e : Z) : Z :=
  if 0 <=? e then Z.pos m * 2 ^ e * 100
  else round_half_even (Z.pos m * 100) (2 ^ (- e)).

Definition sign_str (s : bool) : string := if s then "-" else "".

Definition two_digits (n : Z) : string :=
  (if n <? 10 then "0" else "") +:+ pretty n.

(** [%.2f].  A [float] has a single NaN, without the sign bit a binary64
    NaN carries: "nan" stands for what [printf] writes for a NaN, which is
    [nan] or [-nan] by that bit.  Statements that compare the printed cash of
    the two programs are therefore made of runs without a NaN
    ([cash_never_nan]). *)
Definition fmt_2f (x : float) : string :=
  match Prim2SF x with
  | S754_nan => "nan"
  | S754_infinity s => sign_str s +:+ "inf"
  | S754_zero s => sign_str s +:+ "0.00"
  | S754_finite s m e =>
      let c := hundredths m e in
      sign_str s +:+ pretty (c / 100) +:+ "." +:+ two_digits (c mod 100)
  end.

(** [snprintf(buf, size, ...)] keeps at most [size - 1] characters. *)
Definition snprintf (size : nat) (s : string) : string :=
  String.substring 0 (size - 1) s.

End Printf.

(** ** The C++ program: [src/command/modern/main.cpp] *)

Module Modern.
Import Printf.

(** *** Receiver: [class Portfolio] *)

Record Portfolio := mkPortfolio {
  positions_ : gmap string Z;      (* std::unordered_map<std::string, int> *)
  cash_ : float                    (* double *)
}.

(** [explicit Portfolio(double cash)] *)
Definition Portfolio_new (cash : float) : Portfolio := mkPortfolio ∅ cash.

(** The value [positions_[symbol]] denotes: [operator[]] value-initialises
    a missing entry, so an unset symbol reads as quantity 0. *)
Definition quantity (p : Portfolio) (symbol : string) : Z :=
  default 0 (positions_ p !! symbol).

(** Each mutator returns the updated Portfolio and the line it prints. *)

Definition buy (symbol : string) (qty : Z) (price : float) (p : Portfolio)
  : Portfolio * list string :=
  let positions := <[symbol := int_wrap (quantity p symbol + qty)]> (positions_ p) in
  let cash := (cash_ p - double_of_int qty * price)%float in
  (mkPortfolio positions cash,
   ["  [EXEC] BUY  " +:+ fmt_d qty +:+ " " +:+ c_str symbol +:+ " @ $"
      +:+ fmt_2f price +:+ "  (cash: $" +:+ fmt_2f cash +:+ ")"]).

Definition sell (symbol : string) (qty : Z) (price : float) (p : Portfolio)
  : Portfolio * list string :=
  let positions := <[symbol := int_wrap (quantity p symbol - qty)]> (positions_ p) in
  let cash := (cash_ p + double_of_int qty * price)%float in
  (mkPortfolio positions cash,
   ["  [EXEC] SELL " +:+ fmt_d qty +:+ " " +:+ c_str symbol +:+ " @ $"
      +:+ fmt_2f price +:+ "  (cash: $" +:+ fmt_2f cash +:+ ")"]).

Definition reverse_buy (symbol : string) (qty : Z) (price : float) (p : Portfolio)
  : Portfolio * list string :=
  let positions := <[symbol := int_wrap (quantity p symbol - qty)]> (positions_ p) in
  let cash := (cash_ p + double_of_int qty * price)%float in
  (mkPortfolio positions cash,
   ["  [UNDO] BUY  " +:+ fmt_d qty +:+ " " +:+ c_str symbol +:+ " @ $"
      +:+ fmt_2f price +:+ " reversed  (cash: $" +:+ fmt_2f cash +:+ ")"]).

Definition reverse_sell (symbol : string) (qty : Z) (price : float) (p : Portfolio)
  : Portfolio * list string :=
  let positions := <[symbol := int_wrap (quantity p symbol + qty)]> (positions_ p) in
  let cash := (cash_ p - double_of_int qty * price)%float in
  (mkPortfolio positions cash,
   ["  [UNDO] SELL " +:+ fmt_d qty +:+ " " +:+ c_str symbol +:+ " @ $"
      +:+ fmt_2f price +:+ " reversed  (cash: $" +:+ fmt_2f cash +:+ ")"]).

(** *** Commands: [std::variant<BuyTrade, SellTrade>] *)

Module BuyTrade.
Record t := mk { symbol : string; quantity : Z; price : float }.
Definition description (a : t) : string :=
  snprintf 128 ("BUY " +:+ fmt_d (quantity a) +:+ " " +:+ c_str (symbol a)
                  +:+ " @ $" +:+ fmt_2f (price a)).
End BuyTrade.

Module SellTrade.
Record t := mk { symbol : string; quantity : Z; price : float }.
Definition description (a : t) : string :=
  snprintf 128 ("SELL " +:+ fmt_d (quantity a) +:+ " " +:+ c_str (symbol a)
                  +:+ " @ $" +:+ fmt_2f (price a)).
End SellTrade.

Inductive TradeAction :=
| Buy (t : BuyTrade.t)
| Sell (t : SellTrade.t).

Definition execute_action (action : TradeAction) (p : Portfolio)
  : Portfolio * list string :=
  match action with
  | Buy t => buy (BuyTrade.symbol t) (BuyTrade.quantity t) (BuyTrade.price t) p
  | Sell t => sell (SellTrade.symbol t) (SellTrade.quantity t) (SellTrade.price t) p
  end.

Definition undo_action (action : TradeAction) (p : Portfolio)
  : Portfolio * list string :=
  match action with
  | Buy t => reverse_buy (BuyTrade.symbol t) (BuyTrade.quantity t) (BuyTrade.price t) p
  | Sell t => reverse_sell (SellTrade.symbol t) (SellTrade.quantity t) (SellTrade.price t) p
  end.

Definition action_description (action : TradeAction) : string :=
  match action with
  | Buy t => BuyTrade.description t
  | Sell t => SellTrade.description t
  end.

(** *** [class TradeHistory] *)

(** The two vectors, oldest element first: [push_back] appends,
    [back]/[pop_back] work at the end of the list. *)
Record TradeHistory := mkHistory {
  executed_ : list TradeAction;
  undone_ : list TradeAction
}.

Definition TradeHistory_new : TradeHistory := mkHistory [] [].

(** What a member call can touch: the history it is called on, the
    Portfolio passed by reference, and standard output. *)
Record State := mkState {
  history : TradeHistory;
  portfolio : Portfolio;
  stdout : list string
}.

Definition execute (action : TradeAction) (st : State) : State :=
  let '(p, out) := execute_action action (portfolio st) in
  mkState (mkHistory (executed_ (history st) ++ [action]) [])
          p (stdout st ++ out).

Definition undo (st : State) : bool * State :=
  match last (executed_ (history st)) with
  | None => (false, st)
  | Some action =>
      let executed := removelast (executed_ (history st)) in
      let '(p, out) := undo_action action (portfolio st) in
      (true, mkState (mkHistory executed (undone_ (history st) ++ [action]))
                     p (stdout st ++ out))
  end.

Definition redo (st : State) : bool * State :=
  match last (undone_ (history st)) with
  | None => (false, st)
  | Some action =>
      let undone := removelast (undone_ (history st)) in
      let '(p, out) := execute_action action (portfolio st) in
      (true, mkState (mkHistory (executed_ (history st) ++ [action]) undone)
                     p (stdout st ++ out))
  end.

(** One line of [print_history]: [printf("    %zu. %s\n", i + 1, ...)]. *)
Definition history_line (i : nat) (action : TradeAction) : string :=
  "    " +:+ fmt_zu (i + 1) +:+ ". " +:+ c_str (action_description action).

(** The lines [print_history] writes. *)
Definition history_lines (h : TradeHistory) : list string :=
  ["  Trade History:"]
    ++ imap history_line (executed_ h)
    ++ (if decide (executed_ h = []) then ["    (empty)"] else []).

Definition print_history (st : State) : State :=
  mkState (history st) (portfolio st) (stdout st ++ history_lines (history st)).

Definition size (h : TradeHistory) : nat := length (executed_ h).

(** The entries [print_history] numbers, without the display indentation:
    what the specification calls [list()]. *)
Definition list_entry (i : nat) (action : TradeAction) : string :=
  fmt_zu (i + 1) +:+ ". " +:+ c_str (action_description action).

Definition list_entries (h : TradeHistory) : list string :=
  imap list_entry (executed_ h).

(** *** Sequences of member calls on one history *)

Inductive call :=
| CallExecute (action : TradeAction)
| CallUndo
| CallRedo
| CallPrintHistory.

Definition perform (c : call) (st : State) : State :=
  match c with
  | CallExecute action => execute action st
  | CallUndo => snd (undo st)
  | CallRedo => snd (redo st)
  | CallPrintHistory => print_history st
  end.

Definition run (cs : list call) (st : State) : State :=
  fold_left (fun st c => perform c st) cs st.

(** A freshly constructed history next to a Portfolio. *)
Definition fresh (p : Portfolio) : State := mkState TradeHistory_new p [].

(** The forward effect of each action, in order. *)
Definition replay (actions : list TradeAction) (p : Portfolio) : Portfolio :=
  fold_left (fun p action => fst (execute_action action p)) actions p.

(** What can be read off a Portfolio: its cash and the quantity of every
    symbol. *)
Definition same_holdings (p q : Portfolio) : Prop :=
  cash_ p = cash_ q /\ forall symbol, quantity p symbol = quantity q symbol.

(** Every stored quantity is an [int]. *)
Definition int_quantities (p : Portfolio) : Prop :=
  forall symbol, int_range (quantity p symbol).

(** *** Several histories: the local variables of a function like [main]

    A [TradeHistory] object has two [std::vector] members, and a vector
    owns element storage on the free store.  Copies are modelled at this
    level, where two objects can hold the same storage: that a copy does
    not is what its constructor has to establish. *)

(** The free store: the storage of each vector by address, and the next
    address that an allocation returns. *)
Record Store := mkStore {
  cells : gmap nat (list TradeAction);
  next : nat
}.

(** [std::vector<TradeAction>]: the address of the storage it owns. *)
Record vector := mkVector { data : nat }.

Definition contents (v : vector) (s : Store) : list TradeAction :=
  default [] (cells s !! data v).

Definition assign (v : vector) (l : list TradeAction) (s : Store) : Store :=
  mkStore (<[data v := l]> (cells s)) (next s).

Definition allocate (l : list TradeAction) (s : Store) : vector * Store :=
  (mkVector (next s), mkStore (<[next s := l]> (cells s)) (S (next s))).

(** [vector()] and [vector(const vector&)]: fresh storage, empty or
    holding a copy of the elements. *)
Definition vector_new (s : Store) : vector * Store := allocate [] s.

Definition vector_copy (other : vector) (s : Store) : vector * Store :=
  allocate (contents other s) s.

(** [push_back], [pop_back], [clear], [back] and [empty] work on the
    storage of the vector they are called on. *)
Definition push_back (v : vector) (a : TradeAction) (s : Store) : Store :=
  assign v (contents v s ++ [a]) s.

Definition pop_back (v : vector) (s : Store) : Store :=
  assign v (removelast (contents v s)) s.

Definition clear (v : vector) (s : Store) : Store := assign v [] s.

Definition back (v : vector) (s : Store) : option TradeAction := last (contents v s).

Definition empty (v : vector) (s : Store) : bool :=
  match contents v s with [] => true | _ :: _ => false end.

(** [class TradeHistory] as an object, and its member functions on the
    free store, the Portfolio passed by reference and standard output. *)
Module Obj.

Record t := mk {
  executed_ : vector;
  undone_ : vector
}.

Record World := mkWorld {
  heap : Store;
  receiver : Portfolio;
  output : list string
}.

(** The history an object stands for: what its two vectors hold. *)
Definition value (this : t) (s : Store) : TradeHistory :=
  mkHistory (contents (executed_ this) s) (contents (undone_ this) s).

(** The implicit default constructor and the implicit copy constructor:
    member by member. *)
Definition create (s : Store) : t * Store :=
  let '(e, s) := vector_new s in
  let '(u, s) := vector_new s in
  (mk e u, s).

Definition copy (other : t) (s : Store) : t * Store :=
  let '(e, s) := vector_copy (executed_ other) s in
  let '(u, s) := vector_copy (undone_ other) s in
  (mk e u, s).

Definition execute (this : t) (action : TradeAction) (w : World) : World :=
  let '(p, out) := execute_action action (receiver w) in
  let s := push_back (executed_ this) action (heap w) in
  let s := clear (undone_ this) s in
  mkWorld s p (output w ++ out).

Definition undo (this : t) (w : World) : bool * World :=
  if empty (executed_ this) (heap w) then (false, w)
  else
    match back (executed_ this) (heap w) with
    | None => (false, w)
    | Some action =>
        let s := pop_back (executed_ this) (heap w) in
        let '(p, out) := undo_action action (receiver w) in
        let s := push_back (undone_ this) action s in
        (true, mkWorld s p (output w ++ out))
    end.

Definition redo (this : t) (w : World) : bool * World :=
  if empty (undone_ this) (heap w) then (false, w)
  else
    match back (undone_ this) (heap w) with
    | None => (false, w)
    | Some action =>
        let s := pop_back (undone_ this) (heap w) in
        let '(p, out) := execute_action action (receiver w) in
        let s := push_back (executed_ this) action s in
        (true, mkWorld s p (output w ++ out))
    end.

Definition print_history (this : t) (w : World) : World :=
  mkWorld (heap w) (receiver w)
          (output w
             ++ ["  Trade History:"]
             ++ imap history_line (contents (executed_ this) (heap w))
             ++ (if empty (executed_ this) (heap w) then ["    (empty)"] else [])).

Definition size (this : t) (s : Store) : nat := length (contents (executed_ this) s).

Definition perform (c : call) (this : t) (w : World) : World :=
  match c with
  | CallExecute action => execute this action w
  | CallUndo => snd (undo this w)
  | CallRedo => snd (redo this w)
  | CallPrintHistory => print_history this w
  end.

End Obj.

Record Frame := mkFrame {
  locals : gmap string Obj.t;
  world : Obj.World
}.

(** A function body that has declared nothing yet. *)
Definition Frame_new (p : Portfolio) : Frame :=
  mkFrame ∅ (Obj.mkWorld (mkStore ∅ 0) p []).

Inductive stmt :=
| Construct (x : string)               (* TradeHistory x; *)
| CopyInit (x y : string)              (* auto x = y; *)
| Call (x : string) (c : call).        (* x.c(portfolio); *)

Definition step (s : stmt) (f : Frame) : Frame :=
  let w := world f in
  match s with
  | Construct x =>
      let '(o, st) := Obj.create (Obj.heap w) in
      mkFrame (<[x := o]> (locals f)) (Obj.mkWorld st (Obj.receiver w) (Obj.output w))
  | CopyInit x y =>
      match locals f !! y with
      | Some other =>
          let '(o, st) := Obj.copy other (Obj.heap w) in
          mkFrame (<[x := o]> (locals f)) (Obj.mkWorld st (Obj.receiver w) (Obj.output w))
      | None => f
      end
  | Call x c =>
      match locals f !! x with
      | Some this => mkFrame (locals f) (Obj.perform c this w)
      | None => f
      end
  end.

Definition exec (prog : list stmt) (f : Frame) : Frame :=
  fold_left (fun f s => step s f) prog f.

(** The history the variable [x] holds. *)
Definition view (f : Frame) (x : string) : option TradeHistory :=
  (fun o => Obj.value o (Obj.heap (world f))) <$> locals f !! x.

(** Every history object owns storage of its own: allocated, and shared
    neither between its two vectors nor with another object. *)
Record separated (f : Frame) : Prop := {
  sep_allocated : forall x o, locals f !! x = Some o ->
    (data (Obj.executed_ o) < next (Obj.heap (world f)))%nat
    /\ (data (Obj.undone_ o) < next (Obj.heap (world f)))%nat;
  sep_members : forall x o, locals f !! x = Some o ->
    data (Obj.executed_ o) <> data (Obj.undone_ o);
  sep_objects : forall x y ox oy, x <> y ->
    locals f !! x = Some ox -> locals f !! y = Some oy ->
    data (Obj.executed_ ox) <> data (Obj.executed_ oy)
    /\ data (Obj.executed_ ox) <> data (Obj.undone_ oy)
    /\ data (Obj.undone_ ox) <> data (Obj.executed_ oy)
    /\ data (Obj.undone_ ox) <> data (Obj.undone_ oy)
}.

(** Two names for one object, as a reference would give: the frame after
    [TradeHistory history;] with [alias] bound to the same object. *)
Definition aliased (p : Portfolio) : Frame :=
  let f := step (Construct "history") (Frame_new p) in
  match locals f !! "history" with
  | Some o => mkFrame (<["alias" := o]> (locals f)) (world f)
  | None => f
  end.

(** *** The walk-through of the specification

    Three trades, two undos and one redo on a Portfolio opened with
    1,000,000.00 in cash. *)

Definition buy_aapl : TradeAction := Buy (BuyTrade.mk "AAPL" 100 185.5).
Definition buy_googl : TradeAction := Buy (BuyTrade.mk "GOOGL" 50 140.25).
Definition sell_msft : TradeAction := Sell (SellTrade.mk "MSFT" 75 420).

Definition walkthrough : list call :=
  [CallExecute buy_aapl; CallExecute buy_googl; CallExecute sell_msft;
   CallUndo; CallUndo; CallRedo].

(** The statements of [main] on [history] up to the snapshot, and the
    trade it executes on the original afterwards. *)
Definition main_before_snapshot : list stmt :=
  [Construct "history";
   Call "history" (CallExecute buy_aapl);
   Call "history" (CallExecute buy_googl);
   Call "history" (CallExecute sell_msft);
   Call "history" CallPrintHistory;
   Call "history" CallUndo].

Definition sell_aapl : TradeAction := Sell (SellTrade.mk "AAPL" 50 190).

End Modern.

(** ** The C program: [src/c/command.c], approach 1 (tagged union) *)

Module PureC.
Import Printf.

Definition MAX_POSITIONS : Z := 32.
Definition MAX_HISTORY : Z := 64.

(** *** Undefined behaviour

    The C code indexes its fixed arrays without a check.  An access
    outside the array is undefined behaviour; the model stops there and
    reports the array and the index. *)

Inductive fault := OutOfBounds (array : string) (index : Z).

Inductive outcome (A : Type) :=
| Ok (a : A)
| Undefined (f : fault).
Arguments Ok {A} a.
Arguments Undefined {A} f.

#[global] Instance outcome_ret : MRet outcome := @Ok.
#[global] Instance outcome_bind : MBind outcome := fun A B f m =>
  match m with
  | Ok a => f a
  | Undefined e => Undefined e
  end.

(** [a[i]] read and [a[i] = v] for an array declared with [cap] cells. *)
Definition array_get {A} (name : string) (cap : Z) (a : list A) (i : Z) : outcome A :=
  if decide (0 <= i < cap) then
    match a !! Z.to_nat i with
    | Some v => Ok v
    | None => Undefined (OutOfBounds name i)
    end
  else Undefined (OutOfBounds name i).

Definition array_set {A} (name : string) (cap : Z) (a : list A) (i : Z) (v : A)
  : outcome (list A) :=
  if decide (0 <= i < cap) then
    if decide (Z.to_nat i < length a)%nat then Ok (<[Z.to_nat i := v]> a)
    else Undefined (OutOfBounds name i)
  else Undefined (OutOfBounds name i).

(** [strncpy(dst, src, 15); dst[15] = '\0'] into a [char[16]]. *)
Definition strncpy15 (src : string) : string := String.substring 0 15 (c_str src).

(** [strcmp(a, b) == 0] *)
Definition strcmp_eq (a b : string) : bool := String.eqb (c_str a) (c_str b).

(** *** Receiver: [Portfolio] *)

Record Portfolio := mkPortfolio {
  symbols : list string;           (* char symbols[MAX_POSITIONS][16] *)
  quantities : list Z;             (* int quantities[MAX_POSITIONS] *)
  count : Z;
  cash : float
}.

(** [memset(p, 0, sizeof *p); p->cash = cash] *)
Definition portfolio_init (cash : float) : Portfolio :=
  mkPortfolio (replicate (Z.to_nat MAX_POSITIONS) EmptyString)
              (replicate (Z.to_nat MAX_POSITIONS) 0) 0 cash.

(** The loop of [portfolio_find] from index [i], with [n] iterations left. *)
Fixpoint find_from (p : Portfolio) (symbol : string) (i : Z) (n : nat) : outcome Z :=
  match n with
  | O => Ok (-1)
  | S n' =>
      s ← array_get "symbols" MAX_POSITIONS (symbols p) i;
      if strcmp_eq s symbol then Ok i else find_from p symbol (i + 1) n'
  end.

Definition portfolio_find (p : Portfolio) (symbol : string) : outcome Z :=
  find_from p symbol 0 (Z.to_nat (count p)).

Definition portfolio_adjust (symbol : string) (qty_delta : Z) (cash_delta : float)
    (p : Portfolio) : outcome Portfolio :=
  idx ← portfolio_find p symbol;
  '(idx, p) ← (if idx <? 0 then
                 let idx := count p in
                 syms ← array_set "symbols" MAX_POSITIONS (symbols p) idx (strncpy15 symbol);
                 qs ← array_set "quantities" MAX_POSITIONS (quantities p) idx 0;
                 Ok (idx, mkPortfolio syms qs (int_wrap (count p + 1)) (cash p))
               else Ok (idx, p));
  q ← array_get "quantities" MAX_POSITIONS (quantities p) idx;
  qs ← array_set "quantities" MAX_POSITIONS (quantities p) idx (int_wrap (q + qty_delta));
  Ok (mkPortfolio (symbols p) qs (count p) (cash p + cash_delta)%float).

Definition portfolio_buy (symbol : string) (qty : Z) (price : float) (p : Portfolio)
  : outcome (Portfolio * list string) :=
  p ← portfolio_adjust symbol qty (- (double_of_int qty * price))%float p;
  Ok (p, ["  [EXEC] BUY  " +:+ fmt_d qty +:+ " " +:+ c_str symbol +:+ " @ $"
            +:+ fmt_2f price +:+ "  (cash: $" +:+ fmt_2f (cash p) +:+ ")"]).

Definition portfolio_sell (symbol : string) (qty : Z) (price : float) (p : Portfolio)
  : outcome (Portfolio * list string) :=
  p ← portfolio_adjust symbol (int_wrap (- qty)) (double_of_int qty * price)%float p;
  Ok (p, ["  [EXEC] SELL " +:+ fmt_d qty +:+ " " +:+ c_str symbol +:+ " @ $"
            +:+ fmt_2f price +:+ "  (cash: $" +:+ fmt_2f (cash p) +:+ ")"]).

Definition portfolio_reverse_buy (symbol : string) (qty : Z) (price : float)
    (p : Portfolio) : outcome (Portfolio * list string) :=
  p ← portfolio_adjust symbol (int_wrap (- qty)) (double_of_int qty * price)%float p;
  Ok (p, ["  [UNDO] BUY  " +:+ fmt_d qty +:+ " " +:+ c_str symbol +:+ " @ $"
            +:+ fmt_2f price +:+ " reversed  (cash: $" +:+ fmt_2f (cash p) +:+ ")"]).

Definition portfolio_reverse_sell (symbol : string) (qty : Z) (price : float)
    (p : Portfolio) : outcome (Portfolio * list string) :=
  p ← portfolio_adjust symbol qty (- (double_of_int qty * price))%float p;
  Ok (p, ["  [UNDO] SELL " +:+ fmt_d qty +:+ " " +:+ c_str symbol +:+ " @ $"
            +:+ fmt_2f price +:+ " reversed  (cash: $" +:+ fmt_2f (cash p) +:+ ")"]).

(** *** Commands: the tagged union [TradeCommand] *)

Inductive TradeCommandType := CMD_BUY | CMD_SELL.

Record TradeCommand := mkCommand {
  type : TradeCommandType;
  symbol : string;                 (* char symbol[16] *)
  quantity : Z;
  price : float
}.

Definition cmd_buy (symbol : string) (qty : Z) (price : float) : TradeCommand :=
  mkCommand CMD_BUY (strncpy15 symbol) qty price.

Definition cmd_sell (symbol : string) (qty : Z) (price : float) : TradeCommand :=
  mkCommand CMD_SELL (strncpy15 symbol) qty price.

Definition cmd_execute (cmd : TradeCommand) (p : Portfolio)
  : outcome (Portfolio * list string) :=
  match type cmd with
  | CMD_BUY => portfolio_buy (symbol cmd) (quantity cmd) (price cmd) p
  | CMD_SELL => portfolio_sell (symbol cmd) (quantity cmd) (price cmd) p
  end.

Definition cmd_undo (cmd : TradeCommand) (p : Portfolio)
  : outcome (Portfolio * list string) :=
  match type cmd with
  | CMD_BUY => portfolio_reverse_buy (symbol cmd) (quantity cmd) (price cmd) p
  | CMD_SELL => portfolio_reverse_sell (symbol cmd) (quantity cmd) (price cmd) p
  end.

Definition cmd_describe (cmd : TradeCommand) (len : nat) : string :=
  snprintf len ((match type cmd with CMD_BUY => "BUY" | CMD_SELL => "SELL" end)
                  +:+ " " +:+ fmt_d (quantity cmd) +:+ " " +:+ c_str (symbol cmd)
                  +:+ " @ $" +:+ fmt_2f (price cmd)).

(** *** Command history: two fixed arrays and their fill counts *)

Record TradeHistory := mkHistory {
  executed : list TradeCommand;    (* TradeCommand executed[MAX_HISTORY] *)
  exec_count : Z;
  undone : list TradeCommand;      (* TradeCommand undone[MAX_HISTORY] *)
  undo_count : Z
}.

(** Both arrays have their declared number of cells. *)
Definition well_sized (h : TradeHistory) : Prop :=
  length (executed h) = Z.to_nat MAX_HISTORY
  /\ length (undone h) = Z.to_nat MAX_HISTORY.

(** [history_init] sets the counts and leaves the cells as they are. *)
Definition history_init (h : TradeHistory) : TradeHistory :=
  mkHistory (executed h) 0 (undone h) 0.

Record State := mkState {
  history : TradeHistory;
  portfolio : Portfolio;
  stdout : list string
}.

Definition history_execute (cmd : TradeCommand) (st : State) : outcome State :=
  let h := history st in
  '(p, out) ← cmd_execute cmd (portfolio st);
  ex ← array_set "executed" MAX_HISTORY (executed h) (exec_count h) cmd;
  Ok (mkState (mkHistory ex (int_wrap (exec_count h + 1)) (undone h) 0)
              p (stdout st ++ out)).

Definition history_undo (st : State) : outcome (Z * State) :=
  let h := history st in
  if exec_count h =? 0 then Ok (0, st)
  else
    let n := int_wrap (exec_count h - 1) in
    cmd ← array_get "executed" MAX_HISTORY (executed h) n;
    '(p, out) ← cmd_undo cmd (portfolio st);
    un ← array_set "undone" MAX_HISTORY (undone h) (undo_count h) cmd;
    Ok (1, mkState (mkHistory (executed h) n un (int_wrap (undo_count h + 1)))
                   p (stdout st ++ out)).

Definition history_redo (st : State) : outcome (Z * State) :=
  let h := history st in
  if undo_count h =? 0 then Ok (0, st)
  else
    let n := int_wrap (undo_count h - 1) in
    cmd ← array_get "undone" MAX_HISTORY (undone h) n;
    '(p, out) ← cmd_execute cmd (portfolio st);
    ex ← array_set "executed" MAX_HISTORY (executed h) (exec_count h) cmd;
    Ok (1, mkState (mkHistory ex (int_wrap (exec_count h + 1)) (undone h) n)
                   p (stdout st ++ out)).

(** The loop of [history_print] from index [i], with [n] iterations left. *)
Fixpoint print_from (h : TradeHistory) (i : Z) (n : nat) : outcome (list string) :=
  match n with
  | O => Ok []
  | S n' =>
      cmd ← array_get "executed" MAX_HISTORY (executed h) i;
      rest ← print_from h (i + 1) n';
      Ok (("    " +:+ fmt_d (i + 1) +:+ ". " +:+ cmd_describe cmd 128) :: rest)
  end.

Definition history_print (h : TradeHistory) : outcome (list string) :=
  lines ← print_from h 0 (Z.to_nat (exec_count h));
  Ok (["  Trade History:"] ++ lines
        ++ (if exec_count h =? 0 then ["    (empty)"] else [])).

(** *** Sequences of calls on one history *)

Inductive call :=
| CallExecute (cmd : TradeCommand)
| CallUndo
| CallRedo.

Definition perform (c : call) (st : State) : outcome State :=
  match c with
  | CallExecute cmd => history_execute cmd st
  | CallUndo => '(_, st) ← history_undo st; Ok st
  | CallRedo => '(_, st) ← history_redo st; Ok st
  end.

Fixpoint run (cs : list call) (st : State) : outcome State :=
  match cs with
  | [] => Ok st
  | c :: cs => st ← perform c st; run cs st
  end.

(** [history_init] on whatever the cells hold, next to a Portfolio. *)
Definition fresh (h : TradeHistory) (p : Portfolio) : State :=
  mkState (history_init h) p [].

(** The quantity held of a symbol: the cell [portfolio_find] selects, 0
    when there is none. *)
Definition quantity_of (p : Portfolio) (symbol : string) : outcome Z :=
  idx ← portfolio_find p symbol;
  if idx <? 0 then Ok 0 else array_get "quantities" MAX_POSITIONS (quantities p) idx.

Definition walkthrough : list call :=
  [CallExecute (cmd_buy "AAPL" 100 185.5); CallExecute (cmd_buy "GOOGL" 50 140.25);
   CallExecute (cmd_sell "MSFT" 75 420); CallUndo; CallUndo; CallRedo].

(** A history whose cells are all zero bytes, and 64 trades in a row on
    it: the state in which both the count and the array are full. *)
Definition zeroed : TradeHistory :=
  mkHistory (replicate (Z.to_nat MAX_HISTORY) (mkCommand CMD_BUY EmptyString 0 0)) 0
            (replicate (Z.to_nat MAX_HISTORY) (mkCommand CMD_BUY EmptyString 0 0)) 0.

Definition one_share : TradeCommand := cmd_buy "AAPL" 1 1.

Definition full : State :=
  match run (replicate 64 (CallExecute one_share))
            (fresh zeroed (portfolio_init 1000000)) with
  | Ok st => st
  | Undefined _ => fresh zeroed (portfolio_init 1000000)
  end.

(** The two stacks a history holds: the cells below each count, oldest
    first. *)
Definition executed_stack (h : TradeHistory) : list TradeCommand :=
  take (Z.to_nat (exec_count h)) (executed h).

Definition undone_stack (h : TradeHistory) : list TradeCommand :=
  take (Z.to_nat (undo_count h)) (undone h).

(** The counts stay within what the arrays hold. *)
Definition within_capacity (h : TradeHistory) : Prop :=
  well_sized h
  /\ 0 <= exec_count h /\ 0 <= undo_count h
  /\ exec_count h + undo_count h <= MAX_HISTORY.

End PureC.

(** ** Statement vocabulary *)

Module Vocabulary.
Import Modern.

Definition action_symbol (action : TradeAction) : string :=
  match action with
  | Buy t => BuyTrade.symbol t
  | Sell t => SellTrade.symbol t
  end.

(** [qty * price] as the mutators compute it. *)
Definition trade_value (action : TradeAction) : float :=
  match action with
  | Buy t => (double_of_int (BuyTrade.quantity t) * BuyTrade.price t)%float
  | Sell t => (double_of_int (SellTrade.quantity t) * SellTrade.price t)%float
  end.

(** The cash a forward effect and its reversal leave, from cash [c]. *)
Definition cash_forward (action : TradeAction) (c : float) : float :=
  match action with
  | Buy _ => (c - trade_value action)%float
  | Sell _ => (c + trade_value action)%float
  end.

Definition cash_backward (action : TradeAction) (c : float) : float :=
  match action with
  | Buy _ => (c + trade_value action)%float
  | Sell _ => (c - trade_value action)%float
  end.

(** The cash [execute] then [undo] leave behind, from cash [c]. *)
Definition cash_round_trip (action : TradeAction) (c : float) : float :=
  cash_backward action (cash_forward action c).

(** The history lists an action described by [d]. *)
Definition describes (h : TradeHistory) (d : string) : Prop :=
  d ∈ (action_description <$> executed_ h).

(** The variable a statement writes. *)
Definition target (s : stmt) : string :=
  match s with
  | Construct x | CopyInit x _ | Call x _ => x
  end.

(** No listed action of the variable [x] is described like [action]. *)
Definition omits (f : Frame) (x : string) (action : TradeAction) : Prop :=
  forall h, view f x = Some h -> ~ describes h (action_description action).

(** The replayed and the current Portfolio agree on every quantity. *)
Definition quantities_replayed (p0 : Portfolio) (st : State) : Prop :=
  forall s, quantity (replay (executed_ (history st)) p0) s = quantity (portfolio st) s.

(** They agree on the cash too. *)
Definition cash_replayed (p0 : Portfolio) (st : State) : Prop :=
  cash_ (replay (executed_ (history st)) p0) = cash_ (portfolio st).

(** If the call [c] made in state [st] undoes an action, the two roundings
    cancel: from the cash [c0] that the rest of the undo stack replays to,
    executing and undoing the action gives [c0] again. *)
Definition undo_exact (p0 : Portfolio) (st : State) (c : call) : Prop :=
  match c, last (executed_ (history st)) with
  | CallUndo, Some action =>
      let c0 := cash_ (replay (removelast (executed_ (history st))) p0) in
      cash_round_trip action c0 = c0
  | _, _ => True
  end.

(** Every undo of the calls [cs], made one after the other from [st], is
    exact. *)
Fixpoint undos_exact (p0 : Portfolio) (cs : list call) (st : State) : Prop :=
  match cs with
  | [] => True
  | c :: cs => undo_exact p0 st c /\ undos_exact p0 cs (perform c st)
  end.

End Vocabulary.

(** ** The rest of the C++ program *)

Module ModernRest.
Import Printf Modern.

(** *** [Portfolio::print_positions]

    The loop visits the entries of the [std::unordered_map] in an order the
    standard leaves open: [entries] is the order of one traversal. *)

Definition position_line (entry : string * Z) : option string :=
  let '(sym, qty) := entry in
  if decide (qty <> 0)
  then Some ("    " +:+ c_str sym +:+ ": " +:+ fmt_d qty +:+ " shares")
  else None.

Definition print_positions (entries : list (string * Z)) (p : Portfolio) : list string :=
  ["  Portfolio:"; "    Cash: $" +:+ fmt_2f (cash_ p)] ++ omap position_line entries.

(** [entries] visits every entry of the map once. *)
Definition traversal (p : Portfolio) (entries : list (string * Z)) : Prop :=
  entries ≡ₚ map_to_list (positions_ p).

(** *** Approach 2: the type-erased [Command] *)

(** [Command::Concept]: what a wrapped command can do. *)
Class Concept (T : Type) := {
  concept_execute : T -> Portfolio -> Portfolio * list string;
  concept_undo : T -> Portfolio -> Portfolio * list string;
  concept_description : T -> string
}.

(** [class Command]: a value of any type with these members, its type
    hidden; copying a Command clones the value it holds. *)
Inductive Command :=
| Erase {T : Type} `{Concept T} (cmd : T).

Definition Command_execute (c : Command) (p : Portfolio) : Portfolio * list string :=
  match c with Erase cmd => concept_execute cmd p end.

Definition Command_undo (c : Command) (p : Portfolio) : Portfolio * list string :=
  match c with Erase cmd => concept_undo cmd p end.

Definition Command_description (c : Command) : string :=
  match c with Erase cmd => concept_description cmd end.

Module MarketBuy.
Record t := mk { symbol : string; quantity : Z; price : float }.
Definition execute (c : t) (p : Portfolio) := buy (symbol c) (quantity c) (price c) p.
Definition undo (c : t) (p : Portfolio) := reverse_buy (symbol c) (quantity c) (price c) p.
Definition description (c : t) : string :=
  snprintf 128 ("MARKET BUY " +:+ fmt_d (quantity c) +:+ " " +:+ c_str (symbol c)
                  +:+ " @ $" +:+ fmt_2f (price c)).
End MarketBuy.

Module LimitSell.
Record t := mk { symbol : string; quantity : Z; limit_price : float }.
Definition execute (c : t) (p : Portfolio) := sell (symbol c) (quantity c) (limit_price c) p.
Definition undo (c : t) (p : Portfolio) :=
  reverse_sell (symbol c) (quantity c) (limit_price c) p.
Definition description (c : t) : string :=
  snprintf 128 ("LIMIT SELL " +:+ fmt_d (quantity c) +:+ " " +:+ c_str (symbol c)
                  +:+ " @ $" +:+ fmt_2f (limit_price c)).
End LimitSell.

#[global] Instance MarketBuy_concept : Concept MarketBuy.t :=
  {| concept_execute := MarketBuy.execute;
     concept_undo := MarketBuy.undo;
     concept_description := MarketBuy.description |}.

#[global] Instance LimitSell_concept : Concept LimitSell.t :=
  {| concept_execute := LimitSell.execute;
     concept_undo := LimitSell.undo;
     concept_description := LimitSell.description |}.

(** The two loops of [main]: [for (const auto& cmd : commands)
    cmd.execute(portfolio2)] and the reverse iteration that undoes. *)
Definition execute_each (commands : list Command) (p : Portfolio)
  : Portfolio * list string :=
  fold_left (fun '(p, out) c => let '(p', o) := Command_execute c p in (p', out ++ o))
            commands (p, []).

Definition undo_each_reversed (commands : list Command) (p : Portfolio)
  : Portfolio * list string :=
  fold_left (fun '(p, out) c => let '(p', o) := Command_undo c p in (p', out ++ o))
            (rev commands) (p, []).

(** A command of one of the two kinds the program defines. *)
Definition wrap (c : MarketBuy.t + LimitSell.t) : Command :=
  match c with
  | inl b => Erase b
  | inr s => Erase s
  end.

(** The commands of [main], part 2. *)
Definition main_commands : list (MarketBuy.t + LimitSell.t) :=
  [inl (MarketBuy.mk "TSLA" 200 175); inr (LimitSell.mk "NVDA" 30 890.5)].

End ModernRest.

(** ** The rest of the C program, approach 1 *)

Module PureCRest.
Import Printf PureC.

(** The loop of [portfolio_print] from index [i], with [n] iterations left. *)
Fixpoint print_cells (p : Portfolio) (i : Z) (n : nat) : outcome (list string) :=
  match n with
  | O => Ok []
  | S n' =>
      q ← array_get "quantities" MAX_POSITIONS (quantities p) i;
      line ← (if q =? 0 then Ok []
              else s ← array_get "symbols" MAX_POSITIONS (symbols p) i;
                   Ok ["    " +:+ c_str s +:+ ": " +:+ fmt_d q +:+ " shares"]);
      rest ← print_cells p (i + 1) n';
      Ok (line ++ rest)
  end.

Definition portfolio_print (p : Portfolio) : outcome (list string) :=
  cells ← print_cells p 0 (Z.to_nat (count p));
  Ok (["  Portfolio:"; "    Cash: $" +:+ fmt_2f (cash p)] ++ cells).

End PureCRest.

(** ** Vocabulary for the C receiver and for comparing the two programs *)

Module Relate.
Import Printf.

(** A string a [char[16]] holds as it is: at most 15 characters, no NUL. *)
Definition c_symbol (s : string) : Prop := PureC.strncpy15 s = s.

(** The symbols of the cells in use, oldest first. *)
Definition held (p : PureC.Portfolio) : list string :=
  take (Z.to_nat (PureC.count p)) (PureC.symbols p).

(** The index of the first of [l] that [strcmp] finds equal to [s], counted
    from [i]; -1 when there is none. *)
Fixpoint index_from (l : list string) (s : string) (i : Z) : Z :=
  match l with
  | [] => -1
  | x :: l => if PureC.strcmp_eq x s then i else index_from l s (i + 1)
  end.

(** The quantity in the cell [portfolio_find] selects, 0 without a cell. *)
Definition reading (p : PureC.Portfolio) (s : string) : Z :=
  let i := index_from (held p) s 0 in
  if i <? 0 then 0 else default 0 (PureC.quantities p !! Z.to_nat i).

(** Arrays of the declared size and a count within them. *)
Definition sized (p : PureC.Portfolio) : Prop :=
  length (PureC.symbols p) = Z.to_nat PureC.MAX_POSITIONS
  /\ length (PureC.quantities p) = Z.to_nat PureC.MAX_POSITIONS
  /\ 0 <= PureC.count p <= PureC.MAX_POSITIONS.

(** The shape every Portfolio built by [portfolio_init] and the mutators
    has: arrays of the declared size, a count within them, and in the cells
    in use distinct symbols that fit their cell. *)
Record well_formed (p : PureC.Portfolio) : Prop := {
  wf_sized : sized p;
  wf_distinct : NoDup (held p);
  wf_fit : Forall c_symbol (held p)
}.

#[global] Instance c_symbol_dec s : Decision (c_symbol s).
Proof. unfold c_symbol. apply _. Defined.

(** Thirty-two symbols, S0 to S31, bought one share each: every cell is in
    use. *)
Definition crowd : list string := (fun i : nat => "S" +:+ pretty i) <$> seq 0 32.

Definition crowded : PureC.Portfolio :=
  foldl (fun p s => match PureC.portfolio_adjust s 1 0 p with
                    | PureC.Ok p' => p'
                    | PureC.Undefined _ => p
                    end)
        (PureC.portfolio_init 1000000) crowd.

(** The C++ action a C command stands for. *)
Definition action_of (cmd : PureC.TradeCommand) : Modern.TradeAction :=
  match PureC.type cmd with
  | PureC.CMD_BUY =>
      Modern.Buy (Modern.BuyTrade.mk (PureC.symbol cmd) (PureC.quantity cmd) (PureC.price cmd))
  | PureC.CMD_SELL =>
      Modern.Sell (Modern.SellTrade.mk (PureC.symbol cmd) (PureC.quantity cmd) (PureC.price cmd))
  end.

Definition call_of (c : PureC.call) : Modern.call :=
  match c with
  | PureC.CallExecute cmd => Modern.CallExecute (action_of cmd)
  | PureC.CallUndo => Modern.CallUndo
  | PureC.CallRedo => Modern.CallRedo
  end.

(** The command of a call fits its [char[16]], as every command built by
    [cmd_buy] or [cmd_sell] does. *)
Definition call_fits (c : PureC.call) : Prop :=
  match c with
  | PureC.CallExecute cmd => c_symbol (PureC.symbol cmd)
  | _ => True
  end.

(** The two receivers hold the same cash and the same quantity of every
    symbol a cell can hold. *)
Definition same_receiver (p : PureC.Portfolio) (m : Modern.Portfolio) : Prop :=
  PureC.cash p = Modern.cash_ m
  /\ forall s, c_symbol s -> PureC.quantity_of p s = PureC.Ok (Modern.quantity m s).

(** The two programs are in the same state: same receiver, same stacks,
    same output so far. *)
Record same_state (c : PureC.State) (m : Modern.State) : Prop := {
  same_capacity : PureC.within_capacity (PureC.history c);
  same_shape : well_formed (PureC.portfolio c);
  same_portfolio : same_receiver (PureC.portfolio c) (Modern.portfolio m);
  same_executed :
    action_of <$> PureC.executed_stack (PureC.history c)
    = Modern.executed_ (Modern.history m);
  same_undone :
    action_of <$> PureC.undone_stack (PureC.history c)
    = Modern.undone_ (Modern.history m);
  same_fit :
    Forall (fun cmd => c_symbol (PureC.symbol cmd))
           (PureC.executed_stack (PureC.history c) ++ PureC.undone_stack (PureC.history c));
  same_known :
    Forall (fun cmd => PureC.symbol cmd ∈ held (PureC.portfolio c))
           (PureC.executed_stack (PureC.history c) ++ PureC.undone_stack (PureC.history c));
  same_stdout : PureC.stdout c = Modern.stdout m
}.

(** No cash value of a run is a NaN.  The C program computes
    [cash += -(qty * price)] where the C++ program computes
    [cash_ -= qty * price]: the same double whenever the result is a number,
    but a NaN of the opposite sign when the trade value is a NaN, and
    [printf] shows the sign ([-nan] against [nan]).  A [float] has a single
    NaN, so the two programs are compared on runs without one. *)
Fixpoint cash_never_nan (cs : list Modern.call) (st : Modern.State) : bool :=
  negb (PrimFloat.is_nan (Modern.cash_ (Modern.portfolio st)))
  && match cs with
     | [] => true
     | c :: cs => cash_never_nan cs (Modern.perform c st)
     end.

(** The lines [history_print] writes for the commands [l], the first of
    them numbered [i + 1]. *)
Fixpoint numbered (l : list PureC.TradeCommand) (i : Z) : list string :=
  match l with
  | [] => []
  | cmd :: l =>
      ("    " +:+ fmt_d (i + 1) +:+ ". " +:+ PureC.cmd_describe cmd 128) :: numbered l (i + 1)
  end.

(** The symbols a sequence of calls trades in, and how many trades it
    executes. *)
Definition traded (cs : list PureC.call) : list string :=
  omap (fun c => match c with PureC.CallExecute cmd => Some (PureC.symbol cmd) | _ => None end) cs.

Definition executes (cs : list PureC.call) : nat := length (traded cs).

End Relate.

(** ** Arithmetic of [int] *)

Lemma int_wrap_range z : int_range (int_wrap z).
Proof.
  unfold int_range, int_wrap.
  pose proof (Z.mod_pos_bound (z + 2 ^ 31) (2 ^ 32) ltac:(lia)). lia.
Qed.

Lemma int_wrap_id z : int_range z -> int_wrap z = z.
Proof.
  unfold int_range, int_wrap. intros Hz.
  rewrite Z.mod_small by lia. lia.
Qed.

Lemma int_wrap_congr a b k : a = b + k * 2 ^ 32 -> int_wrap a = int_wrap b.
Proof.
  intros ->. unfold int_wrap.
  replace (b + k * 2 ^ 32 + 2 ^ 31) with (b + 2 ^ 31 + k * 2 ^ 32) by ring.
  now rewrite Z.mod_add by lia.
Qed.

Lemma int_wrap_decompose z : exists k, int_wrap z = z + k * 2 ^ 32.
Proof.
  exists (- ((z + 2 ^ 31) / 2 ^ 32)). unfold int_wrap.
  rewrite Z.mod_eq by lia. ring.
Qed.

Lemma int_wrap_add_sub a q : int_wrap (int_wrap (a + q) - q) = int_wrap a.
Proof.
  destruct (int_wrap_decompose (a + q)) as [k ->].
  apply (int_wrap_congr _ _ k). ring.
Qed.

Lemma int_wrap_sub_add a q : int_wrap (int_wrap (a - q) + q) = int_wrap a.
Proof.
  destruct (int_wrap_decompose (a - q)) as [k ->].
  apply (int_wrap_congr _ _ k). ring.
Qed.

Lemma int_wrap_idem z : int_wrap (int_wrap z) = int_wrap z.
Proof. apply int_wrap_id, int_wrap_range. Qed.

(** ** The vectors: [back] and [pop_back] *)

Section Vectors.
Context {A : Type}.
Implicit Types (l : list A) (a : A).

Lemma back_push l a : last (l ++ [a]) = Some a.
Proof. apply last_snoc. Qed.

Lemma pop_push l a : removelast (l ++ [a]) = l.
Proof. apply removelast_last. Qed.

Lemma back_empty l : last l = None <-> l = [].
Proof. apply last_None. Qed.

Lemma back_pop l a : last l = Some a -> l = removelast l ++ [a].
Proof.
  destruct l as [|x l'] using rev_ind; [discriminate|].
  rewrite last_snoc, removelast_last. now intros [= ->].
Qed.
End Vectors.

(** ** How the mutators move quantities and cash *)

Section Mutators.
Import Modern Vocabulary.
Implicit Types (p : Portfolio) (action : TradeAction) (st : State).

Lemma quantity_insert p symbol v s cash :
  quantity (mkPortfolio (<[symbol := v]> (positions_ p)) cash) s
  = if decide (symbol = s) then v else quantity p s.
Proof.
  unfold quantity; simpl. rewrite lookup_insert.
  destruct (decide (symbol = s)); reflexivity.
Qed.

Lemma quantity_execute_action action p s :
  quantity (execute_action action p).1 s
  = if decide (action_symbol action = s)
    then match action with
         | Buy t => int_wrap (quantity p s + BuyTrade.quantity t)
         | Sell t => int_wrap (quantity p s - SellTrade.quantity t)
         end
    else quantity p s.
Proof.
  destruct action as [t|t]; simpl; rewrite quantity_insert;
    destruct (decide _) as [<-|]; reflexivity.
Qed.

Lemma quantity_undo_action action p s :
  quantity (undo_action action p).1 s
  = if decide (action_symbol action = s)
    then match action with
         | Buy t => int_wrap (quantity p s - BuyTrade.quantity t)
         | Sell t => int_wrap (quantity p s + SellTrade.quantity t)
         end
    else quantity p s.
Proof.
  destruct action as [t|t]; simpl; rewrite quantity_insert;
    destruct (decide _) as [<-|]; reflexivity.
Qed.

Lemma cash_execute_action action p :
  cash_ (execute_action action p).1 = cash_forward action (cash_ p).
Proof. destruct action; reflexivity. Qed.

Lemma cash_undo_action action p :
  cash_ (undo_action action p).1 = cash_backward action (cash_ p).
Proof. destruct action; reflexivity. Qed.

(** Undoing an action takes every quantity back, modulo the width of
    [int]. *)
Lemma quantity_undo_execute action p s :
  quantity (undo_action action (execute_action action p).1).1 s
  = if decide (action_symbol action = s) then int_wrap (quantity p s)
    else quantity p s.
Proof.
  rewrite quantity_undo_action, quantity_execute_action.
  destruct (decide _); [|reflexivity].
  destruct action; [apply int_wrap_add_sub | apply int_wrap_sub_add].
Qed.

Lemma quantity_execute_undo action p s :
  quantity (execute_action action (undo_action action p).1).1 s
  = if decide (action_symbol action = s) then int_wrap (quantity p s)
    else quantity p s.
Proof.
  rewrite quantity_execute_action, quantity_undo_action.
  destruct (decide _); [|reflexivity].
  destruct action; [apply int_wrap_sub_add | apply int_wrap_add_sub].
Qed.

(** The three members, as equations on the stacks. *)

Lemma execute_eq action st :
  execute action st
  = mkState (mkHistory (executed_ (history st) ++ [action]) [])
            (execute_action action (portfolio st)).1
            (stdout st ++ (execute_action action (portfolio st)).2).
Proof. unfold execute. now destruct (execute_action _ _). Qed.

Lemma undo_push st l action :
  executed_ (history st) = l ++ [action] ->
  undo st
  = (true, mkState (mkHistory l (undone_ (history st) ++ [action]))
                   (undo_action action (portfolio st)).1
                   (stdout st ++ (undo_action action (portfolio st)).2)).
Proof.
  intros E. unfold undo. rewrite E, back_push, pop_push.
  now destruct (undo_action _ _).
Qed.

Lemma redo_push st l action :
  undone_ (history st) = l ++ [action] ->
  redo st
  = (true, mkState (mkHistory (executed_ (history st) ++ [action]) l)
                   (execute_action action (portfolio st)).1
                   (stdout st ++ (execute_action action (portfolio st)).2)).
Proof.
  intros E. unfold redo. rewrite E, back_push, pop_push.
  now destruct (execute_action _ _).
Qed.

Lemma undo_empty st : executed_ (history st) = [] -> undo st = (false, st).
Proof. intros E. unfold undo. now rewrite E. Qed.

Lemma redo_empty st : undone_ (history st) = [] -> redo st = (false, st).
Proof. intros E. unfold redo. now rewrite E. Qed.

End Mutators.

(** ** Undo and redo on the C++ history *)

Section UndoRedo.
Import Modern Vocabulary.
Implicit Types (p : Portfolio) (action : TradeAction) (st : State).

#[local] Set Warnings "-inexact-float".

(** C1, as the specification states it, fails: undo does not always
    restore the cash balance.  With 1,000,000.10 in cash (the double
    0x1.e848033333333p+19), selling 200 MSFT at 420.00 adds 84,000.00: the
    sum lies halfway between two doubles of [2^20, 2^21) and is rounded up
    by 2^-33.  Undo subtracts 84,000.00 exactly and leaves
    0x1.e848033333334p+19, printed 1000000.1000000001 with 17 digits. *)
Lemma undo_cash_not_restored :
  ~ same_holdings
      (portfolio (undo (execute (Sell (SellTrade.mk "MSFT" 200 420))
                                (fresh (Portfolio_new 1000000.1)))).2)
      (portfolio (fresh (Portfolio_new 1000000.1))).
Proof.
  intros [Hcash _]. vm_compute in Hcash. discriminate Hcash.
Qed.

(** The cash along that run: before, after the execute, after the undo. *)
Example undo_cash_trace :
  cash_ (Portfolio_new 1000000.1) = 0x1.e848033333333p+19%float
  /\ cash_ (portfolio (execute (Sell (SellTrade.mk "MSFT" 200 420))
                               (fresh (Portfolio_new 1000000.1))))
     = 0x1.08a601999999ap+20%float
  /\ cash_ (portfolio (undo (execute (Sell (SellTrade.mk "MSFT" 200 420))
                                     (fresh (Portfolio_new 1000000.1)))).2)
     = 0x1.e848033333334p+19%float.
Proof. repeat split; vm_compute; reflexivity. Qed.

(** C1, amended: for every action and every state whose quantity of the
    action's symbol is an [int], [execute] followed by [undo] succeeds,
    restores the quantity of every symbol and the undo stack, and leaves
    the cash at [(cash - q*p) + q*p] for a Buy and [(cash + q*p) - q*p]
    for a Sell, evaluated in double arithmetic; the Portfolio is the one
    before the two calls whenever that round trip is exact. *)
Theorem undo_after_execute action st :
  int_range (quantity (portfolio st) (action_symbol action)) ->
  let r := undo (execute action st) in
  r.1 = true
  /\ (forall s, quantity (portfolio r.2) s = quantity (portfolio st) s)
  /\ cash_ (portfolio r.2) = cash_round_trip action (cash_ (portfolio st))
  /\ executed_ (history r.2) = executed_ (history st)
  /\ (cash_round_trip action (cash_ (portfolio st)) = cash_ (portfolio st) ->
      same_holdings (portfolio r.2) (portfolio st)).
Proof.
  intros Hrange r. subst r.
  rewrite execute_eq.
  erewrite undo_push by reflexivity. simpl.
  assert (Hq : forall s,
    quantity (undo_action action (execute_action action (portfolio st)).1).1 s
    = quantity (portfolio st) s).
  { intros s. rewrite quantity_undo_execute.
    destruct (decide _) as [<-|]; [now apply int_wrap_id | reflexivity]. }
  assert (Hc : cash_ (undo_action action (execute_action action (portfolio st)).1).1
               = cash_round_trip action (cash_ (portfolio st))).
  { rewrite cash_undo_action, cash_execute_action. now destruct action. }
  repeat split; try assumption.
  - now rewrite Hc.
Qed.

(** The first trade of the walk-through, executed and undone on the
    opening Portfolio: the round trip of the cash is exact there. *)
Lemma undo_after_execute_walkthrough :
  int_range (quantity (portfolio (fresh (Portfolio_new 1000000))) "AAPL")
  /\ same_holdings
       (portfolio (undo (execute buy_aapl (fresh (Portfolio_new 1000000)))).2)
       (portfolio (fresh (Portfolio_new 1000000))).
Proof.
  assert (H : int_range (quantity (portfolio (fresh (Portfolio_new 1000000))) "AAPL")).
  { replace (quantity _ _) with 0 by reflexivity. unfold int_range. lia. }
  split; [exact H|].
  apply (undo_after_execute buy_aapl (fresh (Portfolio_new 1000000)) H).
  vm_compute. reflexivity.
Defined.

(** C2: immediately after any [execute] the redo stack is empty; and
    after [execute(A); undo(); execute(B)] a [redo()] returns false and
    changes nothing, whatever A and B are. *)
Theorem execute_empties_redo action st :
  undone_ (history (execute action st)) = []
  /\ forall B,
       let st' := execute B (undo (execute action st)).2 in
       redo st' = (false, st').
Proof.
  split.
  - now rewrite execute_eq.
  - intros B st'. apply redo_empty. subst st'. now rewrite execute_eq.
Qed.

(** C5: on an empty undo stack [undo] returns false and leaves history,
    Portfolio and output as they are; on an empty redo stack so does
    [redo]; both hold on a freshly constructed history. *)
Theorem empty_stack_noop st :
  (executed_ (history st) = [] -> undo st = (false, st))
  /\ (undone_ (history st) = [] -> redo st = (false, st))
  /\ (forall p, undo (fresh p) = (false, fresh p)
                /\ redo (fresh p) = (false, fresh p)).
Proof.
  split; [apply undo_empty | split; [apply redo_empty |]].
  intros p. split; [now apply undo_empty | now apply redo_empty].
Qed.

(** C9: a successful [undo] or [redo] leaves the undo stack followed by
    the reversed redo stack unchanged as a sequence; [execute] appends its
    action to the undo stack and discards the redo stack. *)
Theorem stacks_conserved st :
  (forall st', undo st = (true, st') ->
     executed_ (history st') ++ rev (undone_ (history st'))
     = executed_ (history st) ++ rev (undone_ (history st)))
  /\ (forall st', redo st = (true, st') ->
     executed_ (history st') ++ rev (undone_ (history st'))
     = executed_ (history st) ++ rev (undone_ (history st)))
  /\ (forall action,
     executed_ (history (execute action st)) ++ rev (undone_ (history (execute action st)))
     = executed_ (history st) ++ [action]).
Proof.
  split; [|split].
  - intros st' H. unfold undo in H.
    destruct (last (executed_ (history st))) as [a|] eqn:E; [|discriminate].
    apply back_pop in E. destruct (undo_action a (portfolio st)).
    injection H as <-. simpl. rewrite E at 2.
    now rewrite rev_app_distr, <- app_assoc.
  - intros st' H. unfold redo in H.
    destruct (last (undone_ (history st))) as [a|] eqn:E; [|discriminate].
    apply back_pop in E. destruct (execute_action a (portfolio st)).
    injection H as <-. simpl. rewrite E at 2.
    now rewrite rev_app_distr, <- app_assoc.
  - intros action. rewrite execute_eq. simpl. apply app_nil_r.
Qed.

(** After [execute; undo] on a fresh history the undo stack is empty
    again while the redo stack is not: a second [undo] is refused. *)
Lemma empty_stack_noop_second_undo :
  undo (undo (execute buy_aapl (fresh (Portfolio_new 1000000)))).2
  = (false, (undo (execute buy_aapl (fresh (Portfolio_new 1000000)))).2).
Proof.
  apply (proj1 (empty_stack_noop
                  (undo (execute buy_aapl (fresh (Portfolio_new 1000000)))).2)).
  vm_compute. reflexivity.
Defined.

(** The first undo of the walk-through. *)
Lemma stacks_conserved_walkthrough :
  executed_ (history (undo (run [CallExecute buy_aapl; CallExecute buy_googl;
                                 CallExecute sell_msft]
                                (fresh (Portfolio_new 1000000)))).2)
    ++ rev (undone_ (history (undo (run [CallExecute buy_aapl; CallExecute buy_googl;
                                         CallExecute sell_msft]
                                        (fresh (Portfolio_new 1000000)))).2))
  = [buy_aapl; buy_googl; sell_msft].
Proof.
  rewrite (proj1 (stacks_conserved
                    (run [CallExecute buy_aapl; CallExecute buy_googl;
                          CallExecute sell_msft]
                         (fresh (Portfolio_new 1000000))))
                 (undo (run [CallExecute buy_aapl; CallExecute buy_googl;
                             CallExecute sell_msft]
                            (fresh (Portfolio_new 1000000)))).2).
  - vm_compute. reflexivity.
  - vm_compute. reflexivity.
Defined.

End UndoRedo.

(** ** Replaying the undo stack *)

Section Replay.
Import Modern Vocabulary.
Implicit Types (p : Portfolio) (action : TradeAction) (st : State) (cs : list call).

#[local] Set Warnings "-inexact-float".

Lemma replay_push l action p :
  replay (l ++ [action]) p = (execute_action action (replay l p)).1.
Proof. unfold replay. now rewrite fold_left_app. Qed.

Lemma run_push cs c st : run (cs ++ [c]) st = perform c (run cs st).
Proof. unfold run. now rewrite fold_left_app. Qed.

Lemma int_quantities_execute action p :
  int_quantities p -> int_quantities (execute_action action p).1.
Proof.
  intros H s. rewrite quantity_execute_action.
  destruct (decide _); [destruct action; apply int_wrap_range | apply H].
Qed.

Lemma int_quantities_replay l p : int_quantities p -> int_quantities (replay l p).
Proof.
  intros H. induction l as [|a l IH] using rev_ind; [exact H|].
  rewrite replay_push. now apply int_quantities_execute.
Qed.

Lemma quantities_replayed_perform p0 c st :
  int_quantities p0 -> quantities_replayed p0 st -> quantities_replayed p0 (perform c st).
Proof.
  intros Hp0 H s. destruct c as [a| | |]; simpl.
  - rewrite execute_eq. simpl. rewrite replay_push.
    rewrite !quantity_execute_action. destruct (decide _); [|apply H].
    now rewrite H.
  - unfold undo.
    destruct (last (executed_ (history st))) as [a|] eqn:E; [|apply H].
    apply back_pop in E. destruct (undo_action a (portfolio st)) as [p' out] eqn:U.
    simpl. replace p' with (undo_action a (portfolio st)).1 by now rewrite U.
    rewrite quantity_undo_action.
    pose proof (H s) as Hs. rewrite E, replay_push in Hs.
    rewrite quantity_execute_action in Hs.
    set (l := removelast (executed_ (history st))) in *.
    pose proof (int_quantities_replay l p0 Hp0 s) as Hr.
    destruct (decide _); [|exact Hs]. rewrite <- Hs.
    destruct a; [rewrite int_wrap_add_sub | rewrite int_wrap_sub_add];
      symmetry; now apply int_wrap_id.
  - unfold redo.
    destruct (last (undone_ (history st))) as [a|] eqn:E; [|apply H].
    destruct (execute_action a (portfolio st)) as [p' out] eqn:X.
    simpl. replace p' with (execute_action a (portfolio st)).1 by now rewrite X.
    rewrite replay_push, !quantity_execute_action.
    destruct (decide _); [|apply H]. now rewrite H.
  - apply H.
Qed.

Lemma cash_replayed_perform p0 c st :
  undo_exact p0 st c -> cash_replayed p0 st -> cash_replayed p0 (perform c st).
Proof.
  unfold cash_replayed, undo_exact. intros Hc Hcash. destruct c as [a| | |]; simpl.
  - rewrite execute_eq. simpl.
    rewrite replay_push, !cash_execute_action. now rewrite Hcash.
  - unfold undo.
    destruct (last (executed_ (history st))) as [a|] eqn:E; [|exact Hcash].
    apply back_pop in E. destruct (undo_action a (portfolio st)) as [p' out] eqn:U.
    simpl in *. replace p' with (undo_action a (portfolio st)).1 by now rewrite U.
    rewrite E, replay_push, cash_execute_action in Hcash.
    rewrite cash_undo_action, <- Hcash.
    destruct a; symmetry; exact Hc.
  - unfold redo.
    destruct (last (undone_ (history st))) as [a|] eqn:E; [|exact Hcash].
    destruct (execute_action a (portfolio st)) as [p' out] eqn:X.
    simpl. replace p' with (execute_action a (portfolio st)).1 by now rewrite X.
    rewrite replay_push, !cash_execute_action. now rewrite Hcash.
  - exact Hcash.
Qed.

Lemma cash_replayed_run p0 cs st :
  undos_exact p0 cs st -> cash_replayed p0 st -> cash_replayed p0 (run cs st).
Proof.
  revert st. induction cs as [|c cs IH]; intros st Hex Hcash; [exact Hcash|].
  destruct Hex as [Hc Hcs]. apply (IH (perform c st) Hcs).
  now apply cash_replayed_perform.
Qed.

Lemma undos_exact_without_undo p0 cs st :
  Forall (fun c => c <> CallUndo) cs -> undos_exact p0 cs st.
Proof.
  revert st. induction cs as [|c cs IH]; intros st H; [exact I|].
  apply Forall_cons in H as [Hc Hcs]. split; [|now apply IH].
  unfold undo_exact. destruct c; try exact I. contradiction.
Qed.

(** C3, as the specification states it, fails on the cash: after
    [execute(SELL 200 MSFT @ 420.00); undo()] on 1,000,000.10 the undo
    stack is empty, so the replay is the initial Portfolio with its cash
    0x1.e848033333333p+19, while the current cash is
    0x1.e848033333334p+19, one unit in the last place more. *)
Lemma replay_cash_differs :
  ~ same_holdings
      (replay (executed_ (history
         (run [CallExecute (Sell (SellTrade.mk "MSFT" 200 420)); CallUndo]
              (fresh (Portfolio_new 1000000.1)))))
         (Portfolio_new 1000000.1))
      (portfolio
         (run [CallExecute (Sell (SellTrade.mk "MSFT" 200 420)); CallUndo]
              (fresh (Portfolio_new 1000000.1)))).
Proof.
  intros [Hcash _]. vm_compute in Hcash. discriminate Hcash.
Qed.

(** C3, amended: in every state reached from an empty history and an
    initial Portfolio with [int] quantities by any sequence of
    execute/undo/redo (and print) calls, replaying the undo stack in order
    from the initial Portfolio yields the current quantity of every
    symbol; it yields the current cash as well when every undo of the
    sequence was exact, and so when the sequence has no undo at all. *)
Theorem replay_reaches_state p0 cs :
  int_quantities p0 ->
  let st := run cs (fresh p0) in
  (forall s, quantity (replay (executed_ (history st)) p0) s = quantity (portfolio st) s)
  /\ (undos_exact p0 cs (fresh p0) ->
      same_holdings (replay (executed_ (history st)) p0) (portfolio st))
  /\ (Forall (fun c => c <> CallUndo) cs ->
      same_holdings (replay (executed_ (history st)) p0) (portfolio st)).
Proof.
  intros Hp0 st. subst st.
  assert (Hq : quantities_replayed p0 (run cs (fresh p0))).
  { induction cs as [|c cs IH] using rev_ind; [intros s; reflexivity|].
    rewrite run_push. now apply quantities_replayed_perform. }
  assert (Hc : undos_exact p0 cs (fresh p0) ->
               same_holdings (replay (executed_ (history (run cs (fresh p0)))) p0)
                             (portfolio (run cs (fresh p0)))).
  { intros Hex. split; [|exact Hq]. now apply cash_replayed_run. }
  split; [exact Hq|]. split; [exact Hc|].
  intros Hno. now apply Hc, undos_exact_without_undo.
Qed.

(** The walk-through of the specification, undos included. *)
Lemma replay_reaches_state_walkthrough :
  int_quantities (Portfolio_new 1000000)
  /\ same_holdings
       (replay (executed_ (history (run walkthrough (fresh (Portfolio_new 1000000)))))
               (Portfolio_new 1000000))
       (portfolio (run walkthrough (fresh (Portfolio_new 1000000)))).
Proof.
  assert (H : int_quantities (Portfolio_new 1000000)).
  { intros s. unfold quantity, Portfolio_new; simpl. rewrite lookup_empty. simpl.
    unfold int_range. lia. }
  split; [exact H|].
  apply (proj1 (proj2 (replay_reaches_state (Portfolio_new 1000000) walkthrough H))).
  vm_compute. repeat split; reflexivity.
Defined.

(** C4, as the specification states it, fails on the cash.  With 144.08
    in cash (0x1.2028f5c28f5c3p+7), buying 1 X at 16.08
    (0x1.0147ae147ae14p+4) leaves exactly 128: the difference is
    128 + 2^-46, halfway between 128 and the next double.  Undo adds 16.08
    back: the sum is again halfway and is rounded to
    0x1.2028f5c28f5c2p+7.  Redo subtracts 16.08 from that, exactly, and
    leaves 128 - 2^-46 (0x1.fffffffffffffp+6), not the 128 that followed
    the original execute. *)
Lemma redo_cash_not_restored :
  ~ same_holdings
      (portfolio (redo (undo (execute (Buy (BuyTrade.mk "X" 1 16.08))
                                      (fresh (Portfolio_new 144.08)))).2).2)
      (portfolio (execute (Buy (BuyTrade.mk "X" 1 16.08))
                          (fresh (Portfolio_new 144.08)))).
Proof.
  intros [Hcash _]. vm_compute in Hcash. discriminate Hcash.
Qed.

(** The cash along that run: after the execute, the undo and the redo. *)
Example redo_cash_trace :
  cash_ (portfolio (execute (Buy (BuyTrade.mk "X" 1 16.08))
                            (fresh (Portfolio_new 144.08))))
  = 128%float
  /\ cash_ (portfolio (undo (execute (Buy (BuyTrade.mk "X" 1 16.08))
                                     (fresh (Portfolio_new 144.08)))).2)
     = 0x1.2028f5c28f5c2p+7%float
  /\ cash_ (portfolio (redo (undo (execute (Buy (BuyTrade.mk "X" 1 16.08))
                                           (fresh (Portfolio_new 144.08)))).2).2)
     = 0x1.fffffffffffffp+6%float.
Proof. repeat split; vm_compute; reflexivity. Qed.

(** C4, amended: [execute(A); undo(); redo()] succeeds and yields the
    history and every symbol quantity of the state right after
    [execute(A)], and the same cash whenever the undo had restored the
    cash of the starting state; on a non-empty redo stack, [redo] removes
    the last action from the redo stack, applies its forward effect,
    appends it to the undo stack and returns true. *)
Theorem redo_after_undo action st :
  let st1 := execute action st in
  let st2 := (undo st1).2 in
  let r := redo st2 in
  (r.1 = true
   /\ history r.2 = history st1
   /\ (forall s, quantity (portfolio r.2) s = quantity (portfolio st1) s)
   /\ cash_ (portfolio r.2)
      = cash_forward action (cash_round_trip action (cash_ (portfolio st)))
   /\ (cash_ (portfolio st2) = cash_ (portfolio st) ->
       same_holdings (portfolio r.2) (portfolio st1)))
  /\ forall st0 l a,
       undone_ (history st0) = l ++ [a] ->
       redo st0
       = (true, mkState (mkHistory (executed_ (history st0) ++ [a]) l)
                        (execute_action a (portfolio st0)).1
                        (stdout st0 ++ (execute_action a (portfolio st0)).2)).
Proof.
  intros st1 st2 r. split; [|intros st0 l a; apply redo_push].
  subst r st2 st1. rewrite execute_eq.
  erewrite undo_push by reflexivity. simpl.
  rewrite (redo_push _ [] action) by reflexivity. simpl.
  set (p := portfolio st).
  assert (Hq : forall s,
    quantity (execute_action action
                (undo_action action (execute_action action p).1).1).1 s
    = quantity (execute_action action p).1 s).
  { intros s. rewrite quantity_execute_undo.
    destruct (decide _) as [E|]; [|reflexivity].
    apply int_wrap_id. rewrite quantity_execute_action, decide_True by exact E.
    destruct action; apply int_wrap_range. }
  split; [reflexivity|]. split; [reflexivity|]. split; [exact Hq|]. split.
  - now rewrite cash_execute_action, cash_undo_action, cash_execute_action.
  - intros Hc. split; [|exact Hq].
    rewrite !cash_execute_action, Hc. reflexivity.
Qed.

(** The second undo of the walk-through followed by its redo. *)
Lemma redo_after_undo_walkthrough :
  same_holdings
    (portfolio (redo (undo (execute buy_googl
       (run [CallExecute buy_aapl] (fresh (Portfolio_new 1000000))))).2).2)
    (portfolio (execute buy_googl
       (run [CallExecute buy_aapl] (fresh (Portfolio_new 1000000))))).
Proof.
  apply (redo_after_undo buy_googl
           (run [CallExecute buy_aapl] (fresh (Portfolio_new 1000000)))).
  vm_compute. reflexivity.
Defined.

End Replay.

(** ** Copies of a history *)

Section Snapshot.
Import Modern Vocabulary.
Implicit Types (f : Frame) (h : TradeHistory) (x y z : string) (v : vector).

(** *** Vectors on the free store *)

Lemma contents_assign v v' l s :
  contents v (assign v' l s) = if decide (data v = data v') then l else contents v s.
Proof.
  unfold contents, assign. cbn. destruct (decide (data v = data v')) as [->|Hne].
  - now rewrite lookup_insert_eq.
  - now rewrite lookup_insert_ne by congruence.
Qed.

Lemma contents_assign_eq v l s : contents v (assign v l s) = l.
Proof. rewrite contents_assign. now rewrite decide_True. Qed.

Lemma contents_assign_ne v v' l s :
  data v <> data v' -> contents v (assign v' l s) = contents v s.
Proof. intros H. rewrite contents_assign. now rewrite decide_False. Qed.

(** An allocation returns the next address, holding [l], and leaves the
    storage of every older vector as it was. *)
Lemma allocate_spec l s :
  data (allocate l s).1 = next s
  /\ next (allocate l s).2 = S (next s)
  /\ contents (allocate l s).1 (allocate l s).2 = l
  /\ forall v, (data v < next s)%nat -> contents v (allocate l s).2 = contents v s.
Proof.
  unfold allocate, contents. cbn. repeat split.
  - now rewrite lookup_insert_eq.
  - intros v Hv. rewrite lookup_insert_ne by lia. reflexivity.
Qed.

(** *** The member functions against the history they stand for

    On an object whose two vectors have storage of their own a member call
    does to the history the object stands for what the same call does to
    the value, and it writes to no other storage. *)
Lemma perform_value c (this : Obj.t) (w : Obj.World) :
  data (Obj.executed_ this) <> data (Obj.undone_ this) ->
  let st := perform c (mkState (Obj.value this (Obj.heap w)) (Obj.receiver w) (Obj.output w)) in
  let w' := Obj.perform c this w in
  Obj.value this (Obj.heap w') = history st
  /\ Obj.receiver w' = portfolio st
  /\ Obj.output w' = stdout st
  /\ next (Obj.heap w') = next (Obj.heap w)
  /\ forall v, data v <> data (Obj.executed_ this) -> data v <> data (Obj.undone_ this) ->
       contents v (Obj.heap w') = contents v (Obj.heap w).
Proof.
  intros Hne st w'. subst st w'. destruct this as [e u]. cbn [Obj.executed_ Obj.undone_] in *.
  destruct w as [hp p out]. cbn [Obj.heap Obj.receiver Obj.output].
  unfold Obj.value. cbn [Obj.executed_ Obj.undone_].
  destruct c as [a| | |]; cbn [perform Obj.perform].
  - (* execute *)
    rewrite execute_eq. unfold Obj.execute.
    cbn [Obj.heap Obj.receiver Obj.output history portfolio stdout].
    destruct (execute_action a p) as [p' o'].
    cbn [history portfolio stdout Obj.heap Obj.receiver Obj.output fst snd executed_ undone_].
    unfold clear, push_back.
    cbn [Obj.executed_ Obj.undone_].
    split; [|split; [reflexivity|split; [reflexivity|split; [reflexivity|]]]].
    + rewrite contents_assign_eq, contents_assign_ne by congruence.
      now rewrite contents_assign_eq.
    + intros v He Hu. now rewrite !contents_assign_ne by assumption.
  - (* undo *)
    unfold undo, Obj.undo, empty, back.
    cbn [Obj.heap Obj.receiver Obj.output Obj.executed_ Obj.undone_ history portfolio stdout
         executed_ undone_].
    destruct (contents e hp) as [|a0 l0] eqn:Ce.
    { cbn. now rewrite Ce. }
    destruct (last (a0 :: l0)) as [a|] eqn:L.
    2:{ cbn. now rewrite Ce. }
    destruct (undo_action a p) as [p' o'].
    cbn [snd history portfolio stdout Obj.heap Obj.receiver Obj.output executed_ undone_].
    unfold push_back, pop_back.
    cbn [Obj.executed_ Obj.undone_].
    split; [|split; [reflexivity|split; [reflexivity|split; [reflexivity|]]]].
    + rewrite contents_assign_ne by congruence.
      rewrite contents_assign_eq, contents_assign_eq.
      rewrite contents_assign_ne by congruence. now rewrite Ce.
    + intros v He Hu. now rewrite !contents_assign_ne by assumption.
  - (* redo *)
    unfold redo, Obj.redo, empty, back.
    cbn [Obj.heap Obj.receiver Obj.output Obj.executed_ Obj.undone_ history portfolio stdout
         executed_ undone_].
    destruct (contents u hp) as [|a0 l0] eqn:Cu.
    { cbn. now rewrite Cu. }
    destruct (last (a0 :: l0)) as [a|] eqn:L.
    2:{ cbn. now rewrite Cu. }
    destruct (execute_action a p) as [p' o'].
    cbn [snd history portfolio stdout Obj.heap Obj.receiver Obj.output executed_ undone_].
    unfold push_back, pop_back.
    cbn [Obj.executed_ Obj.undone_].
    split; [|split; [reflexivity|split; [reflexivity|split; [reflexivity|]]]].
    + rewrite contents_assign_eq.
      rewrite contents_assign_ne by congruence.
      rewrite contents_assign_ne by congruence.
      rewrite contents_assign_eq. now rewrite Cu.
    + intros v He Hu. now rewrite !contents_assign_ne by assumption.
  - (* print_history *)
    unfold print_history, Obj.print_history, history_lines, empty.
    cbn [Obj.heap Obj.receiver Obj.output history portfolio stdout executed_].
    cbn [Obj.executed_ Obj.undone_].
    split; [reflexivity|split; [reflexivity|split; [|split; [reflexivity|reflexivity]]]].
    do 3 f_equal. destruct (contents e hp); [now rewrite decide_True | now rewrite decide_False].
Qed.

(** *** Statements *)

Lemma create_spec s :
  let o := (Obj.create s).1 in
  let s' := (Obj.create s).2 in
  data (Obj.executed_ o) = next s /\ data (Obj.undone_ o) = S (next s)
  /\ next s' = S (S (next s))
  /\ Obj.value o s' = TradeHistory_new
  /\ forall v, (data v < next s)%nat -> contents v s' = contents v s.
Proof.
  unfold Obj.create, vector_new.
  destruct (allocate_spec [] s) as (D1 & N1 & C1 & F1).
  destruct (allocate [] s) as [e s1]. cbn [fst snd] in *.
  destruct (allocate_spec [] s1) as (D2 & N2 & C2 & F2).
  destruct (allocate [] s1) as [u s2]. cbn [fst snd Obj.executed_ Obj.undone_] in *.
  repeat split; try lia.
  - unfold Obj.value. cbn [Obj.executed_ Obj.undone_].
    rewrite C2, F2 by lia. now rewrite C1.
  - intros v Hv. rewrite F2 by lia. now apply F1.
Qed.

(** The copy constructor: the new object stands for the history the other
    one stands for, in storage of its own. *)
Lemma copy_spec (other : Obj.t) s :
  (data (Obj.executed_ other) < next s)%nat -> (data (Obj.undone_ other) < next s)%nat ->
  let o := (Obj.copy other s).1 in
  let s' := (Obj.copy other s).2 in
  data (Obj.executed_ o) = next s /\ data (Obj.undone_ o) = S (next s)
  /\ next s' = S (S (next s))
  /\ Obj.value o s' = Obj.value other s
  /\ forall v, (data v < next s)%nat -> contents v s' = contents v s.
Proof.
  intros He Hu. unfold Obj.copy, vector_copy.
  destruct (allocate_spec (contents (Obj.executed_ other) s) s) as (D1 & N1 & C1 & F1).
  destruct (allocate (contents (Obj.executed_ other) s) s) as [e s1]. cbn [fst snd] in *.
  destruct (allocate_spec (contents (Obj.undone_ other) s1) s1) as (D2 & N2 & C2 & F2).
  destruct (allocate (contents (Obj.undone_ other) s1) s1) as [u s2].
  cbn [fst snd Obj.executed_ Obj.undone_] in *.
  repeat split; try lia.
  - unfold Obj.value. cbn [Obj.executed_ Obj.undone_].
    rewrite C2, F2 by lia. rewrite C1, F1 by assumption. reflexivity.
  - intros v Hv. rewrite F2 by lia. now apply F1.
Qed.

Lemma Frame_new_separated p : separated (Frame_new p).
Proof.
  split; cbn; [intros x o H | intros x o H | intros x y ox oy _ H _];
    now rewrite lookup_empty in H.
Qed.

Lemma step_separated st f : separated f -> separated (step st f).
Proof.
  intros [Ha Hm Ho]. destruct st as [x|x y|x c]; unfold step.
  - (* a new object *)
    destruct (create_spec (Obj.heap (world f))) as (De & Du & Hn & _ & _).
    destruct (Obj.create (Obj.heap (world f))) as [o s']. cbn [fst snd] in *.
    split; cbn [locals world Obj.heap].
    + intros z oz Hz. destruct (decide (x = z)) as [->|Hne].
      * rewrite lookup_insert_eq in Hz. injection Hz as <-. lia.
      * rewrite lookup_insert_ne in Hz by assumption. specialize (Ha z oz Hz). lia.
    + intros z oz Hz. destruct (decide (x = z)) as [->|Hne].
      * rewrite lookup_insert_eq in Hz. injection Hz as <-. lia.
      * rewrite lookup_insert_ne in Hz by assumption. now apply (Hm z).
    + intros z1 z2 o1 o2 Hz H1 H2.
      destruct (decide (x = z1)) as [<-|Hne1]; destruct (decide (x = z2)) as [<-|Hne2].
      * contradiction.
      * rewrite lookup_insert_eq in H1. injection H1 as <-.
        rewrite lookup_insert_ne in H2 by assumption. specialize (Ha z2 o2 H2). lia.
      * rewrite lookup_insert_eq in H2. injection H2 as <-.
        rewrite lookup_insert_ne in H1 by assumption. specialize (Ha z1 o1 H1). lia.
      * rewrite lookup_insert_ne in H1, H2 by assumption. now apply (Ho z1 z2).
  - (* a copy *)
    destruct (locals f !! y) as [other|] eqn:Hy; [|now split].
    destruct (Ha y other Hy) as [He Hu].
    destruct (copy_spec other (Obj.heap (world f)) He Hu) as (De & Du & Hn & _ & _).
    destruct (Obj.copy other (Obj.heap (world f))) as [o s']. cbn [fst snd] in *.
    split; cbn [locals world Obj.heap].
    + intros z oz Hz. destruct (decide (x = z)) as [->|Hne].
      * rewrite lookup_insert_eq in Hz. injection Hz as <-. lia.
      * rewrite lookup_insert_ne in Hz by assumption. specialize (Ha z oz Hz). lia.
    + intros z oz Hz. destruct (decide (x = z)) as [->|Hne].
      * rewrite lookup_insert_eq in Hz. injection Hz as <-. lia.
      * rewrite lookup_insert_ne in Hz by assumption. now apply (Hm z).
    + intros z1 z2 o1 o2 Hz H1 H2.
      destruct (decide (x = z1)) as [<-|Hne1]; destruct (decide (x = z2)) as [<-|Hne2].
      * contradiction.
      * rewrite lookup_insert_eq in H1. injection H1 as <-.
        rewrite lookup_insert_ne in H2 by assumption. specialize (Ha z2 o2 H2). lia.
      * rewrite lookup_insert_eq in H2. injection H2 as <-.
        rewrite lookup_insert_ne in H1 by assumption. specialize (Ha z1 o1 H1). lia.
      * rewrite lookup_insert_ne in H1, H2 by assumption. now apply (Ho z1 z2).
  - (* a member call *)
    destruct (locals f !! x) as [this|] eqn:Hx; [|now split].
    destruct (perform_value c this (world f) (Hm x this Hx)) as (_ & _ & _ & Hn & _).
    split; cbn [locals world]; [|assumption..].
    intros z oz Hz. rewrite Hn. now apply (Ha z).
Qed.

Lemma exec_separated prog f : separated f -> separated (exec prog f).
Proof.
  revert f. induction prog as [|st prog IH]; intros f H; [exact H|].
  cbn. apply IH. now apply step_separated.
Qed.

(** A statement changes no history but the one it names: a declaration
    takes fresh storage, and a member call writes to the storage of its
    own object only. *)
Lemma step_frame st f z : separated f -> z <> target st -> view (step st f) z = view f z.
Proof.
  intros [Ha Hm Ho] Hz. unfold view.
  destruct st as [x|x y|x c]; unfold step; cbn [target] in Hz.
  - destruct (create_spec (Obj.heap (world f))) as (_ & _ & _ & _ & Hf).
    destruct (Obj.create (Obj.heap (world f))) as [o s']. cbn [fst snd locals world Obj.heap] in *.
    rewrite lookup_insert_ne by congruence.
    destruct (locals f !! z) as [oz|] eqn:E; [|reflexivity]. cbn.
    destruct (Ha z oz E) as [He Hu]. unfold Obj.value. now rewrite !Hf by assumption.
  - destruct (locals f !! y) as [other|] eqn:Hy; [|reflexivity].
    destruct (Ha y other Hy) as [He Hu].
    destruct (copy_spec other (Obj.heap (world f)) He Hu) as (_ & _ & _ & _ & Hf).
    destruct (Obj.copy other (Obj.heap (world f))) as [o s']. cbn [fst snd locals world Obj.heap] in *.
    rewrite lookup_insert_ne by congruence.
    destruct (locals f !! z) as [oz|] eqn:E; [|reflexivity]. cbn.
    destruct (Ha z oz E) as [He' Hu']. unfold Obj.value. now rewrite !Hf by assumption.
  - destruct (locals f !! x) as [this|] eqn:Hx; [|reflexivity]. cbn [locals world].
    destruct (locals f !! z) as [oz|] eqn:E; [|reflexivity]. cbn.
    destruct (perform_value c this (world f) (Hm x this Hx)) as (_ & _ & _ & _ & Hf).
    destruct (Ho z x oz this Hz E Hx) as (H1 & H2 & H3 & H4).
    unfold Obj.value. now rewrite !Hf by assumption.
Qed.

Lemma exec_frame prog f z :
  separated f -> Forall (fun st => z <> target st) prog -> view (exec prog f) z = view f z.
Proof.
  revert f. induction prog as [|st prog IH]; intros f Hsep H; [reflexivity|].
  apply Forall_cons in H as [Hs Hprog]. cbn.
  rewrite IH by (try apply step_separated; assumption). now apply step_frame.
Qed.

(** [auto x = y;] gives [x] the history of [y]. *)
Lemma copy_view f x y h : separated f -> view f y = Some h -> view (step (CopyInit x y) f) x = Some h.
Proof.
  intros [Ha _ _] Hy. unfold view in *. unfold step.
  destruct (locals f !! y) as [other|] eqn:E; [|discriminate]. cbn in Hy. injection Hy as <-.
  destruct (Ha y other E) as [He Hu].
  destruct (copy_spec other (Obj.heap (world f)) He Hu) as (_ & _ & _ & Hv & _).
  destruct (Obj.copy other (Obj.heap (world f))) as [o s']. cbn [fst snd locals world Obj.heap] in *.
  rewrite lookup_insert_eq. cbn. now rewrite Hv.
Qed.

(** [y.c(portfolio)] does to the history of [y] what the call does to the
    value. *)
Lemma call_view f y c h :
  separated f -> view f y = Some h ->
  view (step (Call y c) f) y
  = Some (history (perform c (mkState h (Obj.receiver (world f)) (Obj.output (world f))))).
Proof.
  intros [_ Hm _] Hy. unfold view in *. unfold step.
  destruct (locals f !! y) as [this|] eqn:E; [|discriminate]. cbn in Hy. injection Hy as <-.
  cbn [locals world]. rewrite E. cbn.
  now rewrite (proj1 (perform_value c this (world f) (Hm y this E))).
Qed.

(** Storage makes the difference: with two names for one object, a trade
    executed under one name is listed under the other. *)
Lemma shared_storage_not_isolated :
  let f := aliased (Portfolio_new 1000000) in
  ~ separated f
  /\ view f "alias" = Some TradeHistory_new
  /\ view (step (Call "history" (CallExecute buy_aapl)) f) "alias"
     = Some (mkHistory [buy_aapl] []).
Proof.
  split; [|split; vm_compute; reflexivity].
  intros [_ _ Ho].
  destruct (Ho "alias" "history" (Obj.mk (mkVector 0) (mkVector 1))
               (Obj.mk (mkVector 0) (mkVector 1)) ltac:(discriminate)
               ltac:(vm_compute; reflexivity) ltac:(vm_compute; reflexivity)) as [H _].
  now apply H.
Qed.

(** C6, as the specification states it, fails when the original already
    lists a trade described like C: with [BUY 100 AAPL @ $185.50] executed
    once, a snapshot taken, and the same trade executed again on the
    original, the snapshot's only entry carries C's description. *)
Lemma snapshot_lists_equal_trade :
  ~ omits
      (exec [CopyInit "snapshot" "history"; Call "history" (CallExecute buy_aapl)]
            (exec [Construct "history"; Call "history" (CallExecute buy_aapl)]
                  (Frame_new (Portfolio_new 1000000))))
      "snapshot" buy_aapl.
Proof.
  intros H. apply (H (mkHistory [buy_aapl] [])).
  - vm_compute. reflexivity.
  - unfold describes. simpl. apply list_elem_of_here.
Qed.

(** C6, amended: in a frame whose history objects own their storage, as
    every frame built by declarations, copies and member calls is, after
    [auto x = y; y.execute(C, portfolio)] the copy [x] still holds the
    stacks [y] had before the call, so its listing is unchanged, and it
    lists C's description exactly when [y] listed it before; [y] has C
    appended.  In general a statement changes no history other than the
    one it is applied to, so later calls on the copy never change the
    original, nor the other way round. *)
Theorem snapshot_isolated f h1 x y C :
  separated f ->
  x <> y ->
  view f y = Some h1 ->
  let f' := exec [CopyInit x y; Call y (CallExecute C)] f in
  view f' x = Some h1
  /\ view f' y = Some (mkHistory (executed_ h1 ++ [C]) [])
  /\ (forall h2, view f' x = Some h2 ->
        history_lines h2 = history_lines h1
        /\ list_entries h2 = list_entries h1
        /\ (describes h2 (action_description C) <-> describes h1 (action_description C)))
  /\ (~ describes h1 (action_description C) -> omits f' x C)
  /\ (forall prog z, Forall (fun s => z <> target s) prog ->
        view (exec prog f') z = view f' z).
Proof.
  intros Hsep Hxy Hy f'.
  pose proof (step_separated (CopyInit x y) f Hsep) as Hsep1.
  assert (Hx1 : view (step (CopyInit x y) f) x = Some h1) by now apply copy_view.
  assert (Hy1 : view (step (CopyInit x y) f) y = Some h1).
  { rewrite step_frame by (assumption || (cbn; congruence)). exact Hy. }
  assert (Hx' : view f' x = Some h1).
  { subst f'. unfold exec. cbn [fold_left].
    rewrite step_frame by (assumption || (cbn; congruence)). exact Hx1. }
  assert (Hy' : view f' y = Some (mkHistory (executed_ h1 ++ [C]) [])).
  { subst f'. unfold exec. cbn [fold_left].
    rewrite (call_view _ y _ h1) by assumption.
    cbn [perform]. now rewrite execute_eq. }
  split; [exact Hx'|]. split; [exact Hy'|]. split; [|split].
  - intros h2 H2. rewrite Hx' in H2. now injection H2 as <-.
  - intros Hno h2 H2. rewrite Hx' in H2. now injection H2 as <-.
  - intros prog z. apply exec_frame. subst f'. now apply exec_separated.
Qed.

(** [main]: the snapshot taken after the first undo, and the SELL of 50
    AAPL at 190.00 executed on the original afterwards. *)
Lemma snapshot_isolated_main :
  omits
    (exec [CopyInit "snapshot" "history"; Call "history" (CallExecute sell_aapl)]
          (exec main_before_snapshot (Frame_new (Portfolio_new 1000000))))
    "snapshot" sell_aapl.
Proof.
  apply (snapshot_isolated
           (exec main_before_snapshot (Frame_new (Portfolio_new 1000000)))
           (mkHistory [buy_aapl; buy_googl] [sell_msft])
           "snapshot" "history" sell_aapl).
  - apply exec_separated, Frame_new_separated.
  - discriminate.
  - vm_compute. reflexivity.
  - unfold describes. simpl. intros H.
    apply elem_of_cons in H as [H|H]; [vm_compute in H; discriminate H|].
    apply elem_of_cons in H as [H|H]; [vm_compute in H; discriminate H|].
    inversion H.
Defined.

End Snapshot.

(** ** Listing the undo stack, and the forward effect of a trade *)

Section Listing.
Import Modern Vocabulary.
Implicit Types (p : Portfolio) (h : TradeHistory) (st : State).

(** C7: [print_history] changes neither the history nor the Portfolio; it
    writes a header and then one line per action of the undo stack, in
    insertion order, each the indentation followed by the entry
    [n. description] with [n] counting from 1; in the walk-through (three
    executes, two undos, one redo from 1,000,000.00) the entries are
    exactly "1. BUY 100 AAPL @ $185.50" and "2. BUY 50 GOOGL @ $140.25". *)
Theorem print_history_lists st :
  (history (print_history st) = history st
   /\ portfolio (print_history st) = portfolio st
   /\ stdout (print_history st) = stdout st ++ history_lines (history st))
  /\ (forall h,
        history_lines h
        = "  Trade History:" :: (String.append "    " <$> list_entries h)
            ++ (if decide (executed_ h = []) then ["    (empty)"] else []))
  /\ (forall h, length (list_entries h) = length (executed_ h))
  /\ (forall h i action,
        executed_ h !! i = Some action ->
        list_entries h !! i
        = Some (pretty (S i) +:+ ". " +:+ Printf.c_str (action_description action)))
  /\ list_entries (history (run walkthrough (fresh (Portfolio_new 1000000))))
     = ["1. BUY 100 AAPL @ $185.50"; "2. BUY 50 GOOGL @ $140.25"].
Proof.
  split; [repeat split|]. split; [|split; [|split]].
  - intros h. unfold history_lines, list_entries. simpl. f_equal. f_equal.
    rewrite fmap_imap. apply imap_ext. reflexivity.
  - intros h. unfold list_entries. apply length_imap.
  - intros h i action H. unfold list_entries.
    rewrite list_lookup_imap, H. simpl. unfold list_entry, Printf.fmt_zu.
    now replace (i + 1)%nat with (S i) by lia.
  - vm_compute. reflexivity.
Qed.

(** The third entry of a history that lists three trades. *)
Lemma print_history_lists_third :
  list_entries (mkHistory [buy_aapl; buy_googl; sell_msft] []) !! 2%nat
  = Some "3. SELL 75 MSFT @ $420.00".
Proof.
  rewrite (proj1 (proj2 (proj2 (proj2
             (print_history_lists (fresh (Portfolio_new 1000000))))))
             (mkHistory [buy_aapl; buy_googl; sell_msft] []) 2%nat sell_msft
             eq_refl).
  vm_compute. reflexivity.
Defined.

(** C8: the forward effect of a Buy adds its quantity to the position of
    its symbol (in [int] arithmetic) and subtracts [qty * price] from the
    cash; a Sell does both with the opposite sign and may take a position
    below zero; other symbols are untouched and an unset symbol reads as
    0; [execute] applies exactly this effect.  Buying 100 AAPL at 185.50
    with 1,000,000.00 and no positions leaves 981,450.00 and 100 AAPL. *)
Theorem apply_effect p :
  (forall t,
     let p' := (execute_action (Buy t) p).1 in
     let s := BuyTrade.symbol t in
     quantity p' s = int_wrap (quantity p s + BuyTrade.quantity t)
     /\ (int_range (quantity p s + BuyTrade.quantity t) ->
         quantity p' s = quantity p s + BuyTrade.quantity t)
     /\ (forall s', s <> s' -> quantity p' s' = quantity p s')
     /\ cash_ p' = (cash_ p - double_of_int (BuyTrade.quantity t) * BuyTrade.price t)%float)
  /\ (forall t,
     let p' := (execute_action (Sell t) p).1 in
     let s := SellTrade.symbol t in
     quantity p' s = int_wrap (quantity p s - SellTrade.quantity t)
     /\ (int_range (quantity p s - SellTrade.quantity t) ->
         quantity p' s = quantity p s - SellTrade.quantity t)
     /\ (forall s', s <> s' -> quantity p' s' = quantity p s')
     /\ cash_ p' = (cash_ p + double_of_int (SellTrade.quantity t) * SellTrade.price t)%float)
  /\ (forall action st,
        portfolio (execute action st) = (execute_action action (portfolio st)).1)
  /\ (forall c s, quantity (Portfolio_new c) s = 0)
  /\ (cash_ (portfolio (execute buy_aapl (fresh (Portfolio_new 1000000)))) = 981450%float
      /\ quantity (portfolio (execute buy_aapl (fresh (Portfolio_new 1000000)))) "AAPL" = 100)
  /\ quantity (portfolio (execute sell_msft (fresh (Portfolio_new 1000000)))) "MSFT" = -75.
Proof.
  split; [|split; [|split; [|split; [|split]]]].
  - intros t p' s. subst p' s.
    pose proof (quantity_execute_action (Buy t) p) as Hq. simpl action_symbol in Hq.
    split; [|split; [|split]].
    + now rewrite Hq, decide_True.
    + intros Hr. rewrite Hq, decide_True by reflexivity. now apply int_wrap_id.
    + intros s' Hs. now rewrite Hq, decide_False.
    + reflexivity.
  - intros t p' s. subst p' s.
    pose proof (quantity_execute_action (Sell t) p) as Hq. simpl action_symbol in Hq.
    split; [|split; [|split]].
    + now rewrite Hq, decide_True.
    + intros Hr. rewrite Hq, decide_True by reflexivity. now apply int_wrap_id.
    + intros s' Hs. now rewrite Hq, decide_False.
    + reflexivity.
  - intros action st. now rewrite execute_eq.
  - intros c s. unfold quantity, Portfolio_new. simpl. now rewrite lookup_empty.
  - split; vm_compute; reflexivity.
  - vm_compute. reflexivity.
Qed.

(** Buying 50 more AAPL on top of the 100 of the walk-through. *)
Lemma apply_effect_second_buy :
  quantity (execute_action (Buy (BuyTrade.mk "AAPL" 50 190))
              (execute_action buy_aapl (Portfolio_new 1000000)).1).1 "AAPL"
  = quantity (execute_action buy_aapl (Portfolio_new 1000000)).1 "AAPL" + 50.
Proof.
  apply (proj1 (proj2 (proj1
           (apply_effect (execute_action buy_aapl (Portfolio_new 1000000)).1)
           (BuyTrade.mk "AAPL" 50 190)))).
  replace (quantity _ _) with 100 by (vm_compute; reflexivity).
  simpl. unfold int_range. lia.
Defined.

End Listing.

(** ** The fixed arrays of the C history *)

Section FixedCapacity.
Import PureC.
Implicit Types (st : State) (h : TradeHistory) (cmd : TradeCommand).

Lemma array_set_inside {A} name cap (a : list A) i v :
  0 <= i < cap -> length a = Z.to_nat cap ->
  array_set name cap a i v = Ok (<[Z.to_nat i := v]> a).
Proof.
  intros Hi Hlen. unfold array_set.
  rewrite decide_True by assumption. rewrite decide_True by lia. reflexivity.
Qed.

Lemma array_set_outside {A} name cap (a : list A) i v :
  ~ 0 <= i < cap -> array_set name cap a i v = Undefined (OutOfBounds name i).
Proof. intros Hi. unfold array_set. now rewrite decide_False. Qed.

Lemma bind_ok {A B} (m : outcome A) (f : A -> outcome B) a :
  m = Ok a -> (m ≫= f) = f a.
Proof. now intros ->. Qed.

(** C10: each stack of the C history is an array of [MAX_HISTORY] = 64
    commands written without a bounds check.  Once the Portfolio step has
    succeeded, [history_execute] and [history_redo] store into
    [executed[exec_count]] and [history_undo] into [undone[undo_count]]:
    the call is defined when that count is within 0..63, and indexes past
    the array (undefined behaviour) when it is not. *)
Theorem history_capacity st :
  well_sized (history st) ->
  let h := history st in
  MAX_HISTORY = 64
  /\ (forall cmd p out,
        cmd_execute cmd (portfolio st) = Ok (p, out) ->
        (0 <= exec_count h < 64 ->
         history_execute cmd st
         = Ok (mkState (mkHistory (<[Z.to_nat (exec_count h) := cmd]> (executed h))
                                  (int_wrap (exec_count h + 1)) (undone h) 0)
                       p (stdout st ++ out)))
        /\ (~ 0 <= exec_count h < 64 ->
            history_execute cmd st
            = Undefined (OutOfBounds "executed" (exec_count h))))
  /\ (forall cmd p out,
        exec_count h <> 0 ->
        array_get "executed" MAX_HISTORY (executed h) (int_wrap (exec_count h - 1)) = Ok cmd ->
        cmd_undo cmd (portfolio st) = Ok (p, out) ->
        (0 <= undo_count h < 64 ->
         history_undo st
         = Ok (1, mkState (mkHistory (executed h) (int_wrap (exec_count h - 1))
                                     (<[Z.to_nat (undo_count h) := cmd]> (undone h))
                                     (int_wrap (undo_count h + 1)))
                          p (stdout st ++ out)))
        /\ (~ 0 <= undo_count h < 64 ->
            history_undo st = Undefined (OutOfBounds "undone" (undo_count h))))
  /\ (forall cmd p out,
        undo_count h <> 0 ->
        array_get "undone" MAX_HISTORY (undone h) (int_wrap (undo_count h - 1)) = Ok cmd ->
        cmd_execute cmd (portfolio st) = Ok (p, out) ->
        (0 <= exec_count h < 64 ->
         history_redo st
         = Ok (1, mkState (mkHistory (<[Z.to_nat (exec_count h) := cmd]> (executed h))
                                     (int_wrap (exec_count h + 1)) (undone h)
                                     (int_wrap (undo_count h - 1)))
                          p (stdout st ++ out)))
        /\ (~ 0 <= exec_count h < 64 ->
            history_redo st = Undefined (OutOfBounds "executed" (exec_count h)))).
Proof.
  intros [Hex Hun] h. subst h.
  split; [reflexivity|]. split; [|split].
  - intros cmd p out Hp. unfold history_execute. rewrite (bind_ok _ _ _ Hp).
    split; intros Hi.
    + now rewrite array_set_inside.
    + now rewrite array_set_outside.
  - intros cmd p out Hn Hget Hp. unfold history_undo.
    apply Z.eqb_neq in Hn. rewrite Hn.
    rewrite (bind_ok _ _ _ Hget), (bind_ok _ _ _ Hp).
    split; intros Hi.
    + now rewrite array_set_inside.
    + now rewrite array_set_outside.
  - intros cmd p out Hn Hget Hp. unfold history_redo.
    apply Z.eqb_neq in Hn. rewrite Hn.
    rewrite (bind_ok _ _ _ Hget), (bind_ok _ _ _ Hp).
    split; intros Hi.
    + now rewrite array_set_inside.
    + now rewrite array_set_outside.
Qed.

(** The 65th trade: 64 executes fill the array, the next one writes
    [executed[64]]; and an undo on a history whose [undone] array is
    already full writes [undone[64]]. *)
Lemma history_capacity_sixty_fifth :
  (run (replicate 64 (CallExecute one_share)) (fresh zeroed (portfolio_init 1000000))
   = Ok full
   /\ exec_count (history full) = 64
   /\ history_execute one_share full = Undefined (OutOfBounds "executed" 64))
  /\ history_undo (mkState (mkHistory (executed zeroed) 1 (undone zeroed) 64)
                           (portfolio_init 1000000) [])
     = Undefined (OutOfBounds "undone" 64).
Proof.
  split.
  - split; [vm_compute; reflexivity|]. split; [vm_compute; reflexivity|].
    assert (Hsize : well_sized (history full)) by (split; vm_compute; reflexivity).
    destruct (cmd_execute one_share (portfolio full)) as [[p out]|e] eqn:E;
      [|vm_compute in E; discriminate E].
    rewrite (proj2 (proj1 (proj2 (history_capacity full Hsize)) one_share p out E)).
    + vm_compute. reflexivity.
    + replace (exec_count (history full)) with 64 by (vm_compute; reflexivity). lia.
  - set (st := mkState _ _ _).
    assert (Hsize : well_sized (history st)) by (split; vm_compute; reflexivity).
    destruct (cmd_undo (mkCommand CMD_BUY EmptyString 0 0) (portfolio st))
      as [[p out]|e] eqn:E; [|vm_compute in E; discriminate E].
    rewrite (proj2 (proj1 (proj2 (proj2 (history_capacity st Hsize)))
                          (mkCommand CMD_BUY EmptyString 0 0) p out
                          ltac:(discriminate) ltac:(vm_compute; reflexivity) E)).
    + reflexivity.
    + simpl. lia.
Defined.

(** In a run that starts from [history_init] the two counts add up to at
    most the capacity, as long as no call was undefined: [history_undo]
    then finds room in [undone] whenever it has something to undo. *)
Lemma perform_within_capacity c st st' :
  within_capacity (history st) -> perform c st = Ok st' ->
  within_capacity (history st').
Proof.
  intros ((Hex & Hun) & He & Hu & Hsum) H.
  unfold MAX_HISTORY in *.
  destruct c as [cmd| |]; simpl in H.
  - unfold history_execute in H.
    destruct (cmd_execute cmd (portfolio st)) as [[p out]|]; simpl in H; [|discriminate].
    unfold array_set in H. destruct (decide _) as [Hi|]; [|discriminate].
    destruct (decide _); [|discriminate]. simpl in H. injection H as <-. simpl.
    unfold within_capacity, well_sized; simpl. rewrite length_insert.
    rewrite int_wrap_id by (unfold int_range, MAX_HISTORY in *; lia).
    unfold MAX_HISTORY in *. repeat split; try assumption; lia.
  - unfold history_undo in H.
    destruct (exec_count (history st) =? 0) eqn:E0.
    { simpl in H. injection H as <-. unfold within_capacity, well_sized.
      unfold MAX_HISTORY. repeat split; assumption. }
    apply Z.eqb_neq in E0.
    destruct (array_get _ _ _ _) as [cmd|]; simpl in H; [|discriminate].
    destruct (cmd_undo cmd (portfolio st)) as [[p out]|]; simpl in H; [|discriminate].
    unfold array_set in H. destruct (decide _) as [Hi|]; [|discriminate].
    destruct (decide _); [|discriminate]. simpl in H. injection H as <-. simpl.
    unfold within_capacity, well_sized; simpl. rewrite length_insert.
    rewrite !int_wrap_id by (unfold int_range, MAX_HISTORY in *; lia).
    unfold MAX_HISTORY in *. repeat split; try assumption; lia.
  - unfold history_redo in H.
    destruct (undo_count (history st) =? 0) eqn:E0.
    { simpl in H. injection H as <-. unfold within_capacity, well_sized.
      unfold MAX_HISTORY. repeat split; assumption. }
    apply Z.eqb_neq in E0.
    destruct (array_get _ _ _ _) as [cmd|]; simpl in H; [|discriminate].
    destruct (cmd_execute cmd (portfolio st)) as [[p out]|]; simpl in H; [|discriminate].
    unfold array_set in H. destruct (decide _) as [Hi|]; [|discriminate].
    destruct (decide _); [|discriminate]. simpl in H. injection H as <-. simpl.
    unfold within_capacity, well_sized; simpl. rewrite length_insert.
    rewrite !int_wrap_id by (unfold int_range, MAX_HISTORY in *; lia).
    unfold MAX_HISTORY in *. repeat split; try assumption; lia.
Qed.

Lemma run_within_capacity cs h p st :
  well_sized h -> run cs (fresh h p) = Ok st -> within_capacity (history st).
Proof.
  intros Hsize.
  assert (H0 : within_capacity (history (fresh h p))).
  { destruct Hsize. unfold within_capacity, well_sized, MAX_HISTORY; simpl.
    repeat split; try assumption; lia. }
  revert H0. generalize (fresh h p). clear Hsize.
  induction cs as [|c cs IH]; intros s0 H0 H; simpl in H.
  - now injection H as <-.
  - destruct (perform c s0) as [s1|] eqn:E; simpl in H; [|discriminate].
    eapply IH; [|exact H]. eapply perform_within_capacity; eassumption.
Qed.

End FixedCapacity.

(** ** The C program agrees

    The same facts on the tagged-union history of [src/c/command.c], where
    the redo stack is empty when [undo_count] is 0. *)

Section TaggedUnion.
Import PureC.
Implicit Types (st : State) (cmd : TradeCommand).

Lemma history_undo_nothing st :
  exec_count (history st) = 0 -> history_undo st = Ok (0, st).
Proof. intros E. unfold history_undo. now rewrite E. Qed.

Lemma history_redo_nothing st :
  undo_count (history st) = 0 -> history_redo st = Ok (0, st).
Proof. intros E. unfold history_redo. now rewrite E. Qed.

(** [history_execute] resets [undo_count]: a redo right after it does
    nothing and returns 0. *)
Lemma history_execute_clears_redo cmd st st' :
  history_execute cmd st = Ok st' ->
  undo_count (history st') = 0 /\ history_redo st' = Ok (0, st').
Proof.
  intros H. unfold history_execute in H.
  destruct (cmd_execute cmd (portfolio st)) as [[p out]|]; simpl in H; [|discriminate].
  destruct (array_set _ _ _ _ _); simpl in H; [|discriminate].
  injection H as <-. split; [reflexivity | now apply history_redo_nothing].
Qed.

(** On a history that was just initialised both calls return 0. *)
Lemma history_init_nothing h p :
  history_undo (fresh h p) = Ok (0, fresh h p)
  /\ history_redo (fresh h p) = Ok (0, fresh h p).
Proof. split; [now apply history_undo_nothing | now apply history_redo_nothing]. Qed.

(** The stacks move as the vectors of the C++ history do. *)

Lemma take_store {A} (l : list A) (n : Z) (v : A) :
  0 <= n -> (Z.to_nat n < length l)%nat ->
  take (Z.to_nat (n + 1)) (<[Z.to_nat n := v]> l) = take (Z.to_nat n) l ++ [v].
Proof.
  intros Hn Hlen. replace (Z.to_nat (n + 1)) with (S (Z.to_nat n)) by lia.
  rewrite (take_S_r _ _ v) by now apply list_lookup_insert_eq.
  now rewrite take_insert_ge by lia.
Qed.

Lemma take_load {A} (l : list A) (n : Z) (v : A) :
  0 < n -> l !! Z.to_nat (n - 1) = Some v ->
  take (Z.to_nat n) l = take (Z.to_nat (n - 1)) l ++ [v].
Proof.
  intros Hn Hv. replace (Z.to_nat n) with (S (Z.to_nat (n - 1))) by lia.
  now apply take_S_r.
Qed.

Lemma array_get_some {A} name cap (a : list A) i v :
  array_get name cap a i = Ok v -> 0 <= i < cap /\ a !! Z.to_nat i = Some v.
Proof.
  unfold array_get. destruct (decide _); [|discriminate].
  destruct (a !! Z.to_nat i); [|discriminate]. now intros [= ->].
Qed.

Lemma array_set_some {A} name cap (a a' : list A) i v :
  array_set name cap a i v = Ok a' ->
  0 <= i < cap /\ (Z.to_nat i < length a)%nat /\ a' = <[Z.to_nat i := v]> a.
Proof.
  unfold array_set. destruct (decide _); [|discriminate].
  destruct (decide _); [|discriminate]. now intros [= <-].
Qed.

Lemma history_execute_stacks cmd st st' :
  within_capacity (history st) ->
  history_execute cmd st = Ok st' ->
  executed_stack (history st') = executed_stack (history st) ++ [cmd]
  /\ undone_stack (history st') = [].
Proof.
  intros (_ & He & _ & _) H. unfold history_execute in H.
  destruct (cmd_execute cmd (portfolio st)) as [[p out]|]; simpl in H; [|discriminate].
  destruct (array_set _ _ _ _ _) as [ex|] eqn:S; simpl in H; [|discriminate].
  apply array_set_some in S as (Hi & Hlen & ->). unfold MAX_HISTORY in Hi.
  injection H as <-. unfold executed_stack, undone_stack. simpl.
  rewrite int_wrap_id by (unfold int_range; lia).
  split; [now apply take_store | reflexivity].
Qed.

Lemma history_undo_stacks st st' :
  within_capacity (history st) ->
  history_undo st = Ok (1, st') ->
  exists cmd,
    executed_stack (history st) = executed_stack (history st') ++ [cmd]
    /\ undone_stack (history st') = undone_stack (history st) ++ [cmd].
Proof.
  intros (_ & He & Hu & Hsum) H. unfold history_undo in H. unfold MAX_HISTORY in Hsum.
  destruct (exec_count (history st) =? 0) eqn:E0; [discriminate|].
  apply Z.eqb_neq in E0.
  rewrite !int_wrap_id in H by (unfold int_range; lia).
  destruct (array_get _ _ _ _) as [cmd|] eqn:G; simpl in H; [|discriminate].
  apply array_get_some in G as [_ G].
  destruct (cmd_undo cmd (portfolio st)) as [[p out]|]; simpl in H; [|discriminate].
  destruct (array_set _ _ _ _ _) as [un|] eqn:S; simpl in H; [|discriminate].
  apply array_set_some in S as (Hi & Hlen & ->). unfold MAX_HISTORY in Hi.
  injection H as <-. exists cmd. unfold executed_stack, undone_stack. simpl.
  split; [apply take_load; [lia | exact G] | now apply take_store].
Qed.

Lemma history_redo_stacks st st' :
  within_capacity (history st) ->
  history_redo st = Ok (1, st') ->
  exists cmd,
    undone_stack (history st) = undone_stack (history st') ++ [cmd]
    /\ executed_stack (history st') = executed_stack (history st) ++ [cmd].
Proof.
  intros (_ & He & Hu & Hsum) H. unfold history_redo in H. unfold MAX_HISTORY in Hsum.
  destruct (undo_count (history st) =? 0) eqn:E0; [discriminate|].
  apply Z.eqb_neq in E0.
  rewrite !int_wrap_id in H by (unfold int_range; lia).
  destruct (array_get _ _ _ _) as [cmd|] eqn:G; simpl in H; [|discriminate].
  apply array_get_some in G as [_ G].
  destruct (cmd_execute cmd (portfolio st)) as [[p out]|]; simpl in H; [|discriminate].
  destruct (array_set _ _ _ _ _) as [ex|] eqn:S; simpl in H; [|discriminate].
  apply array_set_some in S as (Hi & Hlen & ->). unfold MAX_HISTORY in Hi.
  injection H as <-. exists cmd. unfold executed_stack, undone_stack. simpl.
  split; [apply take_load; [lia | exact G] | now apply take_store].
Qed.

(** A successful undo or redo keeps the commands of the history, in order. *)
Lemma history_stacks_conserved st st' :
  within_capacity (history st) ->
  history_undo st = Ok (1, st') \/ history_redo st = Ok (1, st') ->
  executed_stack (history st') ++ rev (undone_stack (history st'))
  = executed_stack (history st) ++ rev (undone_stack (history st)).
Proof.
  intros Hcap [H|H].
  - destruct (history_undo_stacks _ _ Hcap H) as (cmd & -> & ->).
    now rewrite rev_app_distr, <- app_assoc.
  - destruct (history_redo_stacks _ _ Hcap H) as (cmd & -> & ->).
    now rewrite rev_app_distr, <- app_assoc.
Qed.

(** The first trade of the walk-through. *)
Lemma first_trade_in_c :
  exists p out,
    cmd_execute (cmd_buy "AAPL" 100 185.5) (portfolio_init 1000000) = Ok (p, out)
    /\ cash p = 981450%float
    /\ quantity_of p "AAPL" = Ok 100
    /\ quantity_of p "MSFT" = Ok 0.
Proof.
  eexists _, _. split; [vm_compute; reflexivity|].
  repeat split; vm_compute; reflexivity.
Qed.

(** The whole walk-through: cash, quantities and listing, and the same
    output as the C++ program. *)
Lemma walkthrough_in_c :
  exists st,
    run walkthrough (fresh zeroed (portfolio_init 1000000)) = Ok st
    /\ stdout st
       = Modern.stdout (Modern.run Modern.walkthrough
                          (Modern.fresh (Modern.Portfolio_new 1000000)))
    /\ cash (portfolio st) = 974437.5%float
    /\ quantity_of (portfolio st) "AAPL" = Ok 100
    /\ quantity_of (portfolio st) "GOOGL" = Ok 50
    /\ quantity_of (portfolio st) "MSFT" = Ok 0
    /\ history_print (history st)
       = Ok ["  Trade History:"; "    1. BUY 100 AAPL @ $185.50";
             "    2. BUY 50 GOOGL @ $140.25"].
Proof.
  eexists. split; [vm_compute; reflexivity|].
  repeat split; vm_compute; reflexivity.
Qed.

End TaggedUnion.

(** ** Strings in a [char[16]] *)

Section CStrings.
Import Printf PureC Relate.
Implicit Types (s x : string).

Lemma c_str_idem s : c_str (c_str s) = c_str s.
Proof.
  induction s as [|c s IH]; [reflexivity|]. cbn [c_str].
  destruct (Ascii.eqb c Ascii.zero) eqn:E; [reflexivity|].
  cbn [c_str]. now rewrite E, IH.
Qed.

Lemma c_str_prefix n s : c_str (String.substring 0 n (c_str s)) = String.substring 0 n (c_str s).
Proof.
  revert n. induction s as [|c s IH]; intros [|n]; try reflexivity.
  - cbn [c_str]. now destruct (Ascii.eqb c Ascii.zero).
  - cbn [c_str]. destruct (Ascii.eqb c Ascii.zero) eqn:E; [reflexivity|].
    cbn [String.substring c_str]. now rewrite E, IH.
Qed.

Lemma prefix_idem n s :
  String.substring 0 n (String.substring 0 n s) = String.substring 0 n s.
Proof.
  revert n. induction s as [|c s IH]; intros [|n]; try reflexivity.
  simpl. now rewrite IH.
Qed.

Lemma prefix_length n s : (String.length (String.substring 0 n s) <= n)%nat.
Proof.
  revert n. induction s as [|c s IH]; intros [|n]; simpl; try lia.
  specialize (IH n). lia.
Qed.

(** What [strncpy15] stores fits a cell, whatever it was given. *)
Lemma strncpy15_fits s : c_symbol (strncpy15 s).
Proof.
  unfold c_symbol, strncpy15. now rewrite c_str_prefix, prefix_idem.
Qed.

Lemma c_symbol_c_str s : c_symbol s -> c_str s = s.
Proof. intros <-. apply c_str_prefix. Qed.

Lemma c_symbol_length s : c_symbol s -> (String.length s <= 15)%nat.
Proof. intros <-. apply prefix_length. Qed.

Lemma strcmp_eq_fits x s : c_symbol x -> c_symbol s -> strcmp_eq x s = true <-> x = s.
Proof.
  intros Hx Hs. unfold strcmp_eq.
  rewrite (c_symbol_c_str x Hx), (c_symbol_c_str s Hs). apply String.eqb_eq.
Qed.

Lemma strcmp_eq_refl s : strcmp_eq s s = true.
Proof. unfold strcmp_eq. apply String.eqb_refl. Qed.

End CStrings.

(** ** The C receiver: finding and adjusting a position *)

Section CReceiver.
Import Printf PureC Relate.
Implicit Types (p : Portfolio) (s x : string) (l : list string).

Lemma array_get_inside {A} name cap (a : list A) i v :
  0 <= i < cap -> a !! Z.to_nat i = Some v -> array_get name cap a i = Ok v.
Proof. intros Hi Hv. unfold array_get. now rewrite decide_True, Hv. Qed.

Lemma index_from_bounds l s i :
  0 <= i -> index_from l s i = -1 \/ i <= index_from l s i < i + Z.of_nat (length l).
Proof.
  revert i. induction l as [|x l IH]; intros i Hi; [now left|].
  cbn [index_from length]. destruct (strcmp_eq x s); [right; lia|].
  destruct (IH (i + 1) ltac:(lia)) as [->|H]; [now left | right; lia].
Qed.

Lemma index_from_found l s i k :
  Forall c_symbol l -> NoDup l -> c_symbol s -> l !! k = Some s ->
  index_from l s i = i + Z.of_nat k.
Proof.
  revert i k. induction l as [|x l IH]; intros i k Hfit Hnd Hs Hk; [discriminate|].
  apply Forall_cons in Hfit as [Hx Hfit]. apply NoDup_cons in Hnd as [Hnotin Hnd].
  cbn [index_from]. destruct k as [|k]; simpl in Hk.
  - injection Hk as ->. rewrite strcmp_eq_refl. lia.
  - assert (x <> s) as Hne.
    { intros ->. apply Hnotin. eapply list_elem_of_lookup_2, Hk. }
    destruct (strcmp_eq x s) eqn:E.
    + now apply strcmp_eq_fits in E.
    + rewrite (IH (i + 1) k) by assumption. lia.
Qed.

Lemma index_from_missing l s i :
  Forall c_symbol l -> c_symbol s -> s ∉ l -> index_from l s i = -1.
Proof.
  revert i. induction l as [|x l IH]; intros i Hfit Hs Hnotin; [reflexivity|].
  apply Forall_cons in Hfit as [Hx Hfit]. apply not_elem_of_cons in Hnotin as [Hne Hnotin].
  cbn [index_from]. destruct (strcmp_eq x s) eqn:E.
  - apply strcmp_eq_fits in E; [congruence | assumption..].
  - now apply IH.
Qed.

(** The loop of [portfolio_find] returns the first matching cell in use. *)
Lemma find_from_index p s i n :
  length (symbols p) = Z.to_nat MAX_POSITIONS ->
  0 <= i -> i + Z.of_nat n <= MAX_POSITIONS ->
  find_from p s i n = Ok (index_from (take n (drop (Z.to_nat i) (symbols p))) s i).
Proof.
  intros Hlen. revert i. induction n as [|n IH]; intros i Hi Hn; [reflexivity|].
  cbn [find_from].
  destruct (lookup_lt_is_Some_2 (symbols p) (Z.to_nat i)) as [x Hx].
  { rewrite Hlen. unfold MAX_POSITIONS in *. lia. }
  rewrite (array_get_inside _ _ _ _ x) by (unfold MAX_POSITIONS in *; (lia || assumption)).
  cbn [mbind outcome_bind].
  rewrite (drop_S _ x _ Hx). cbn [take index_from].
  destruct (strcmp_eq x s); [reflexivity|].
  rewrite IH by lia. now replace (Z.to_nat (i + 1)) with (S (Z.to_nat i)) by lia.
Qed.

Lemma portfolio_find_index p s :
  sized p -> portfolio_find p s = Ok (index_from (held p) s 0).
Proof.
  intros (Hlen & _ & Hc). unfold portfolio_find, held.
  rewrite find_from_index by (assumption || lia). reflexivity.
Qed.

Lemma index_quantity p s :
  sized p -> 0 <= index_from (held p) s 0 ->
  0 <= index_from (held p) s 0 < count p
  /\ exists q, quantities p !! Z.to_nat (index_from (held p) s 0) = Some q.
Proof.
  intros (Hsym & Hlen & Hc) Hi. unfold MAX_POSITIONS in *.
  assert (length (held p) = Z.to_nat (count p)) as Hheld.
  { unfold held. rewrite length_take. lia. }
  destruct (index_from_bounds (held p) s 0 ltac:(lia)) as [H|H]; [lia|].
  rewrite Hheld in H. split; [lia|].
  apply lookup_lt_is_Some_2. rewrite Hlen. lia.
Qed.

(** [quantity_of] is defined on every Portfolio of the right size. *)
Lemma quantity_of_reading p s : sized p -> quantity_of p s = Ok (reading p s).
Proof.
  intros Hs. unfold quantity_of, reading. rewrite portfolio_find_index by assumption.
  cbn [mbind outcome_bind].
  destruct (index_from (held p) s 0 <? 0) eqn:E; [reflexivity|].
  apply Z.ltb_ge in E. destruct (index_quantity p s Hs E) as [Hi [q Hq]].
  destruct Hs as (_ & _ & Hc).
  rewrite (array_get_inside _ _ _ _ q); [now rewrite Hq | lia | exact Hq].
Qed.

(** What [portfolio_adjust] does, case by case: the cell found is updated;
    without one, the next cell is taken if there is one, and the array is
    indexed past its end if there is none. *)
Lemma portfolio_adjust_cases p s d cd :
  sized p ->
  portfolio_adjust s d cd p
  = if index_from (held p) s 0 <? 0 then
      if count p <? MAX_POSITIONS then
        Ok (mkPortfolio (<[Z.to_nat (count p) := strncpy15 s]> (symbols p))
                        (<[Z.to_nat (count p) := int_wrap (0 + d)]> (quantities p))
                        (count p + 1) (cash p + cd)%float)
      else Undefined (OutOfBounds "symbols" (count p))
    else
      Ok (mkPortfolio (symbols p)
                      (<[Z.to_nat (index_from (held p) s 0) := int_wrap (reading p s + d)]>
                         (quantities p))
                      (count p) (cash p + cd)%float).
Proof.
  intros Hs. unfold portfolio_adjust. rewrite portfolio_find_index by assumption.
  cbn [mbind outcome_bind]. pose proof Hs as (Hsym & Hqty & Hc).
  unfold MAX_POSITIONS in *.
  destruct (index_from (held p) s 0 <? 0) eqn:E.
  - destruct (count p <? 32) eqn:Ec.
    + apply Z.ltb_lt in Ec.
      rewrite (array_set_inside _ 32) by (assumption || lia). cbn [mbind outcome_bind].
      rewrite (array_set_inside _ 32) by (assumption || lia). cbn [mbind outcome_bind].
      cbn [quantities symbols count cash].
      rewrite (array_get_inside _ _ _ _ 0)
        by (lia || (apply list_lookup_insert_eq; rewrite Hqty; lia)).
      cbn [mbind outcome_bind].
      rewrite (array_set_inside _ 32) by (rewrite ?length_insert; (assumption || lia)).
      cbn [mbind outcome_bind].
      rewrite list_insert_insert_eq.
      rewrite (int_wrap_id (count p + 1)) by (unfold int_range; lia). reflexivity.
    + apply Z.ltb_ge in Ec. rewrite (array_set_outside "symbols") by lia. reflexivity.
  - apply Z.ltb_ge in E. destruct (index_quantity p s Hs E) as [Hi [q Hq]].
    cbn [mbind outcome_bind].
    rewrite (array_get_inside _ _ _ _ q) by (lia || exact Hq). cbn [mbind outcome_bind].
    rewrite (array_set_inside _ 32) by (assumption || lia). cbn [mbind outcome_bind].
    unfold reading. apply Z.ltb_ge in E. rewrite E, Hq. reflexivity.
Qed.

Lemma index_from_held p s :
  well_formed p -> c_symbol s ->
  (exists k, held p !! k = Some s /\ index_from (held p) s 0 = Z.of_nat k)
  \/ ((s ∉ held p) /\ index_from (held p) s 0 = -1).
Proof.
  intros [_ Hnd Hfit] Hs. destruct (decide (s ∈ held p)) as [Hin|Hout].
  - left. apply list_elem_of_lookup_1 in Hin as [k Hk]. exists k. split; [exact Hk|].
    now rewrite (index_from_found _ _ 0 k).
  - right. split; [exact Hout|]. now apply index_from_missing.
Qed.

Lemma reading_held p s k :
  well_formed p -> c_symbol s -> held p !! k = Some s ->
  reading p s = default 0 (quantities p !! k).
Proof.
  intros [Hsz Hnd Hfit] Hs Hk. unfold reading.
  rewrite (index_from_found _ _ 0 k) by assumption.
  replace (0 + Z.of_nat k <? 0) with false by (symmetry; apply Z.ltb_ge; lia).
  now replace (Z.to_nat (0 + Z.of_nat k)) with k by lia.
Qed.

Lemma reading_missing p s :
  well_formed p -> c_symbol s -> s ∉ held p -> reading p s = 0.
Proof.
  intros [_ _ Hfit] Hs Hout. unfold reading. now rewrite index_from_missing.
Qed.

Lemma held_lookup_count p k x : sized p -> held p !! k = Some x -> (k < Z.to_nat (count p))%nat.
Proof.
  intros _ Hk. unfold held in Hk. apply lookup_take_Some in Hk. lia.
Qed.

(** What a defined [portfolio_adjust] changes, in terms of the cells. *)
Lemma adjust_reading p s d cd p' :
  well_formed p -> c_symbol s ->
  portfolio_adjust s d cd p = Ok p' ->
  well_formed p'
  /\ reading p' s = int_wrap (reading p s + d)
  /\ (forall s', c_symbol s' -> s' <> s -> reading p' s' = reading p s')
  /\ cash p' = (cash p + cd)%float
  /\ ((s ∈ held p /\ held p' = held p) \/ ((s ∉ held p) /\ held p' = held p ++ [s])).
Proof.
  intros Hwf Hs H. pose proof Hwf as [Hsz Hnd Hfit]. pose proof Hsz as (Hsym & Hqty & Hc).
  unfold MAX_POSITIONS in *.
  rewrite portfolio_adjust_cases in H by assumption.
  destruct (index_from_held p s Hwf Hs) as [(k & Hk & Hi)|(Hout & Hi)]; rewrite Hi in H.
  - (* the symbol has a cell *)
    assert (E : (Z.of_nat k <? 0) = false) by (apply Z.ltb_ge; lia).
    rewrite E, Nat2Z.id in H. injection H as <-.
    pose proof (held_lookup_count p k s Hsz Hk) as Hlt.
    assert (Hwf' : well_formed
              (mkPortfolio (symbols p) (<[k := int_wrap (reading p s + d)]> (quantities p))
                           (count p) (cash p + cd)%float)).
    { split; [|exact Hnd|exact Hfit]. unfold sized, MAX_POSITIONS. cbn.
      rewrite length_insert. auto. }
    split; [exact Hwf'|]. split; [|split; [|split]].
    + rewrite (reading_held _ s k) by assumption. cbn.
      rewrite list_lookup_insert_eq by lia. reflexivity.
    + intros s' Hs' Hne.
      destruct (index_from_held p s' Hwf Hs') as [(k' & Hk' & _)|(Hout' & _)].
      * rewrite (reading_held _ s' k') by assumption.
        rewrite (reading_held p s' k') by assumption. cbn.
        rewrite list_lookup_insert_ne; [reflexivity|]. intros ->. congruence.
      * rewrite !reading_missing by assumption. reflexivity.
    + reflexivity.
    + left. split; [eapply list_elem_of_lookup_2, Hk | reflexivity].
  - (* the symbol has none *)
    change (-1 <? 0) with true in H. cbv iota in H. unfold MAX_POSITIONS in H.
    destruct (count p <? 32) eqn:Ec; [|discriminate H].
    apply Z.ltb_lt in Ec. injection H as <-.
    rewrite Hs.
    set (n := Z.to_nat (count p)).
    assert (Hheld : held (mkPortfolio (<[n := s]> (symbols p))
                            (<[n := int_wrap (0 + d)]> (quantities p))
                            (count p + 1) (cash p + cd)%float)
                    = held p ++ [s]).
    { unfold held. cbn. apply take_store; [lia | fold n; rewrite Hsym; lia]. }
    assert (Hwf' : well_formed
              (mkPortfolio (<[n := s]> (symbols p))
                           (<[n := int_wrap (0 + d)]> (quantities p))
                           (count p + 1) (cash p + cd)%float)).
    { split.
      - unfold sized, MAX_POSITIONS. cbn. rewrite !length_insert. repeat split; (assumption || lia).
      - rewrite Hheld. apply NoDup_app. split; [exact Hnd|]. split; [|apply NoDup_singleton].
        intros x Hx Hx'. apply list_elem_of_singleton in Hx'. congruence.
      - rewrite Hheld. apply Forall_app. split; [exact Hfit|]. now apply Forall_singleton. }
    assert (Hlen : length (held p) = n).
    { unfold held. rewrite length_take. lia. }
    split; [exact Hwf'|]. split; [|split; [|split]].
    + rewrite (reading_missing p) by assumption.
      rewrite (reading_held _ s n); [| exact Hwf' | exact Hs |].
      * cbn. rewrite list_lookup_insert_eq by lia. reflexivity.
      * rewrite Hheld, lookup_app_r by lia. now rewrite Hlen, Nat.sub_diag.
    + intros s' Hs' Hne.
      destruct (index_from_held p s' Hwf Hs') as [(k' & Hk' & _)|(Hout' & _)].
      * pose proof (held_lookup_count p k' s' Hsz Hk') as Hlt.
        rewrite (reading_held _ s' k'); [| exact Hwf' | exact Hs' |].
        -- rewrite (reading_held p s' k') by assumption. cbn.
           rewrite list_lookup_insert_ne by (fold n in Hlt; lia). reflexivity.
        -- rewrite Hheld. now apply lookup_app_l_Some.
      * rewrite (reading_missing p) by assumption.
        apply reading_missing; [exact Hwf' | exact Hs' |].
        rewrite Hheld. apply not_elem_of_app. split; [exact Hout'|].
        now apply not_elem_of_cons.
    + reflexivity.
    + right. now split.
Qed.

(** It is defined when the symbol has a cell or one is left. *)
Lemma adjust_defined p s d cd :
  well_formed p -> c_symbol s ->
  s ∈ held p \/ count p < MAX_POSITIONS ->
  exists p', portfolio_adjust s d cd p = Ok p'.
Proof.
  intros Hwf Hs Hroom. rewrite portfolio_adjust_cases by apply Hwf.
  destruct (index_from_held p s Hwf Hs) as [(k & Hk & Hi)|(Hout & Hi)]; rewrite Hi.
  - assert (E : (Z.of_nat k <? 0) = false) by (apply Z.ltb_ge; lia). rewrite E. eauto.
  - change (-1 <? 0) with true. cbv iota.
    destruct Hroom as [Hin|Hlt]; [contradiction|].
    apply Z.ltb_lt in Hlt. rewrite Hlt. eauto.
Qed.

Lemma portfolio_init_well_formed cash0 : well_formed (portfolio_init cash0).
Proof.
  split; [repeat split; cbn; (reflexivity || discriminate) | apply NoDup_nil_2
         | apply Forall_nil_2].
Qed.

(** X1.  Adjusting a position and reading it back: on a well-formed
    Portfolio and for a symbol that fits a cell, a defined
    [portfolio_adjust] leaves a well-formed Portfolio in which the symbol
    reads [delta] more (in [int] arithmetic, from 0 if it had no cell),
    every other symbol reads as before, the cash has moved by
    [cash_delta], and at most one cell was added, for this symbol. *)
Theorem portfolio_adjust_effect p s d cd p' :
  well_formed p -> c_symbol s ->
  portfolio_adjust s d cd p = Ok p' ->
  well_formed p'
  /\ (exists q, quantity_of p s = Ok q /\ quantity_of p' s = Ok (int_wrap (q + d)))
  /\ (forall s', c_symbol s' -> s' <> s -> quantity_of p' s' = quantity_of p s')
  /\ cash p' = (cash p + cd)%float
  /\ ((s ∈ held p /\ held p' = held p) \/ ((s ∉ held p) /\ held p' = held p ++ [s])).
Proof.
  intros Hwf Hs H.
  destruct (adjust_reading p s d cd p' Hwf Hs H) as (Hwf' & Hq & Hother & Hcash & Hheld).
  split; [exact Hwf'|]. split; [|split; [|split; [exact Hcash | exact Hheld]]].
  - exists (reading p s). split.
    + apply quantity_of_reading, Hwf.
    + rewrite quantity_of_reading by apply Hwf'. now rewrite Hq.
  - intros s' Hs' Hne. rewrite !quantity_of_reading by (apply Hwf' || apply Hwf).
    now rewrite Hother.
Qed.

(** The first buy of the walkthrough, as an adjustment. *)
Lemma portfolio_adjust_effect_first :
  exists p',
    portfolio_adjust "AAPL" 100 (-18550) (portfolio_init 1000000) = Ok p'
    /\ well_formed p'
    /\ quantity_of p' "AAPL" = Ok 100
    /\ quantity_of p' "GOOGL" = Ok 0
    /\ cash p' = 981450%float
    /\ held p' = ["AAPL"].
Proof.
  destruct (portfolio_adjust "AAPL" 100 (-18550) (portfolio_init 1000000)) as [p'|f] eqn:E;
    [|vm_compute in E; discriminate E].
  destruct (portfolio_adjust_effect _ "AAPL" 100 (-18550) p'
              (portfolio_init_well_formed 1000000) eq_refl E)
    as (Hwf & (q & Hq0 & Hq1) & Hother & Hcash & Hheld).
  exists p'. split; [reflexivity|]. split; [exact Hwf|].
  vm_compute in Hq0. injection Hq0 as <-.
  split; [exact Hq1|]. split; [|split].
  - rewrite (Hother "GOOGL") by (reflexivity || discriminate). reflexivity.
  - rewrite Hcash. reflexivity.
  - destruct Hheld as [[Hin _]|[_ ->]]; [|reflexivity].
    vm_compute in Hin. now apply elem_of_nil in Hin.
Defined.

Lemma int_wrap_add_wrap a b : int_wrap (a + int_wrap b) = int_wrap (a + b).
Proof.
  destruct (int_wrap_decompose b) as [k ->]. apply (int_wrap_congr _ _ k). ring.
Qed.

Lemma cmd_execute_adjust cmd p p' out :
  cmd_execute cmd p = Ok (p', out) ->
  exists cd,
    portfolio_adjust (symbol cmd)
      (match type cmd with CMD_BUY => quantity cmd | CMD_SELL => int_wrap (- quantity cmd) end)
      cd p = Ok p'.
Proof.
  unfold cmd_execute, portfolio_buy, portfolio_sell. destruct (type cmd);
    (destruct (portfolio_adjust _ _ _ p) as [p1|] eqn:E; cbn; [|discriminate]);
    intros [= <- _]; eauto.
Qed.

Lemma cmd_undo_adjust cmd p :
  exists cd line,
    cmd_undo cmd p
    = (p' ← portfolio_adjust (symbol cmd)
              (match type cmd with CMD_BUY => int_wrap (- quantity cmd) | CMD_SELL => quantity cmd end)
              cd p;
       Ok (p', line p')).
Proof.
  unfold cmd_undo, portfolio_reverse_buy, portfolio_reverse_sell.
  destruct (type cmd); eexists _, (fun p' => _); reflexivity.
Qed.

(** X4.  Undo after execute on the C receiver: once [cmd_execute] has
    succeeded on a well-formed Portfolio, [cmd_undo] of the same command is
    defined (its symbol has a cell by then), and it restores the quantity
    of every symbol, provided the traded symbol held an [int] quantity.
    The cell taken for a new symbol stays in use, with quantity 0. *)
Theorem cmd_undo_after_execute cmd p p1 out1 :
  well_formed p -> c_symbol (symbol cmd) ->
  int_range (reading p (symbol cmd)) ->
  cmd_execute cmd p = Ok (p1, out1) ->
  exists p2 out2,
    cmd_undo cmd p1 = Ok (p2, out2)
    /\ well_formed p2
    /\ (forall s, c_symbol s -> quantity_of p2 s = quantity_of p s)
    /\ held p2 = held p1
    /\ symbol cmd ∈ held p2.
Proof.
  intros Hwf Hs Hrange H1.
  destruct (cmd_execute_adjust _ _ _ _ H1) as [cd1 A1].
  destruct (adjust_reading _ _ _ _ _ Hwf Hs A1) as (Hwf1 & Hq1 & Hother1 & _ & Hheld1).
  assert (Hin1 : symbol cmd ∈ held p1).
  { destruct Hheld1 as [[Hin ->]|[_ ->]]; [exact Hin|].
    apply elem_of_app. right. apply list_elem_of_here. }
  destruct (cmd_undo_adjust cmd p1) as (cd2 & line & U).
  destruct (adjust_defined p1 (symbol cmd)
              (match type cmd with CMD_BUY => int_wrap (- quantity cmd) | CMD_SELL => quantity cmd end)
              cd2 Hwf1 Hs (or_introl Hin1)) as [p2 A2].
  destruct (adjust_reading _ _ _ _ _ Hwf1 Hs A2) as (Hwf2 & Hq2 & Hother2 & _ & Hheld2).
  exists p2, (line p2). rewrite U, A2. split; [reflexivity|]. split; [exact Hwf2|].
  assert (Hheld : held p2 = held p1).
  { destruct Hheld2 as [[_ E]|[Hout _]]; [exact E | contradiction]. }
  split; [|split; [exact Hheld | now rewrite Hheld]].
  intros s Hfits. rewrite !quantity_of_reading by (apply Hwf2 || apply Hwf). f_equal.
  destruct (decide (s = symbol cmd)) as [->|Hne].
  - rewrite Hq2, Hq1.
    rewrite <- (int_wrap_id (reading p (symbol cmd))) at 2 by assumption.
    destruct (type cmd).
    + rewrite int_wrap_add_wrap. apply int_wrap_add_sub.
    + rewrite int_wrap_add_wrap.
      apply (int_wrap_sub_add (reading p (symbol cmd)) (quantity cmd)).
  - rewrite Hother2, Hother1 by assumption. reflexivity.
Qed.

(** Buying 100 AAPL on an empty Portfolio and taking it back. *)
Lemma cmd_undo_after_execute_first :
  exists p1 out1 p2 out2,
    cmd_execute (cmd_buy "AAPL" 100 185.5) (portfolio_init 1000000) = Ok (p1, out1)
    /\ cmd_undo (cmd_buy "AAPL" 100 185.5) p1 = Ok (p2, out2)
    /\ quantity_of p2 "AAPL" = Ok 0
    /\ held p2 = held p1.
Proof.
  destruct (cmd_execute (cmd_buy "AAPL" 100 185.5) (portfolio_init 1000000))
    as [[p1 out1]|f] eqn:E; [|vm_compute in E; discriminate E].
  destruct (cmd_undo_after_execute (cmd_buy "AAPL" 100 185.5) (portfolio_init 1000000)
              p1 out1 (portfolio_init_well_formed 1000000) eq_refl
              ltac:(vm_compute; split; [discriminate | reflexivity]) E)
    as (p2 & out2 & U & _ & Hq & Hheld & _).
  exists p1, out1, p2, out2. split; [reflexivity|]. split; [exact U|].
  split; [|exact Hheld]. rewrite (Hq "AAPL") by reflexivity. reflexivity.
Defined.

Lemma index_from_absent l s i :
  (forall x, x ∈ l -> strcmp_eq x s = false) -> index_from l s i = -1.
Proof.
  revert i. induction l as [|x l IH]; intros i H; [reflexivity|].
  cbn [index_from]. rewrite (H x) by apply list_elem_of_here.
  apply IH. intros y Hy. apply H. now apply list_elem_of_further.
Qed.

(** X2.  The Portfolio holds at most [MAX_POSITIONS] = 32 symbols and
    [portfolio_adjust] does not check: on a well-formed Portfolio and for a
    symbol that fits a cell, the call is defined when the symbol already
    has a cell or fewer than 32 cells are in use; a symbol without a cell
    on a full Portfolio makes it write [symbols[32]]. *)
Theorem portfolio_adjust_capacity p s d cd :
  well_formed p -> c_symbol s ->
  MAX_POSITIONS = 32
  /\ (s ∈ held p \/ count p < MAX_POSITIONS ->
      exists p', portfolio_adjust s d cd p = Ok p')
  /\ ((s ∉ held p) -> count p = MAX_POSITIONS ->
      portfolio_adjust s d cd p = Undefined (OutOfBounds "symbols" 32)).
Proof.
  intros Hwf Hs. split; [reflexivity|].
  rewrite portfolio_adjust_cases by apply Hwf.
  destruct (index_from_held p s Hwf Hs) as [(k & Hk & Hi)|(Hout & Hi)]; rewrite Hi.
  - assert (E : (Z.of_nat k <? 0) = false) by (apply Z.ltb_ge; lia). rewrite E.
    split; [eauto|]. intros Hout. exfalso. apply Hout. eapply list_elem_of_lookup_2, Hk.
  - change (-1 <? 0) with true. cbv iota. split.
    + intros [Hin|Hlt]; [contradiction|].
      apply Z.ltb_lt in Hlt. rewrite Hlt. eauto.
    + intros _ Hfull. rewrite Hfull. reflexivity.
Qed.

Lemma crowded_well_formed : well_formed crowded.
Proof.
  split.
  - repeat split; vm_compute; (reflexivity || discriminate).
  - apply (bool_decide_unpack _). vm_compute. reflexivity.
  - apply (bool_decide_unpack _). vm_compute. reflexivity.
Qed.

(** The 33rd symbol. *)
Lemma portfolio_adjust_capacity_crowded :
  portfolio_adjust "S32" 1 0 crowded = Undefined (OutOfBounds "symbols" 32)
  /\ exists p', portfolio_adjust "S31" 1 0 crowded = Ok p'.
Proof.
  split.
  - apply (portfolio_adjust_capacity crowded "S32" 1 0 crowded_well_formed).
    + vm_compute. reflexivity.
    + apply (bool_decide_unpack _). vm_compute. reflexivity.
    + vm_compute. reflexivity.
  - apply (portfolio_adjust_capacity crowded "S31" 1 0 crowded_well_formed).
    + vm_compute. reflexivity.
    + left. apply (bool_decide_unpack _). vm_compute. reflexivity.
Defined.

(** X3.  A symbol of more than 15 characters is never found again: the
    cell stores its first 15 characters and [strcmp] compares with the
    whole name.  Every [portfolio_adjust] with such a symbol takes a new
    cell (or writes past the array when none is left), and the quantity it
    stored does not read back under that name. *)
Theorem long_symbol_never_found p s d cd :
  sized p -> Forall c_symbol (held p) ->
  (15 < String.length (c_str s))%nat ->
  (count p < MAX_POSITIONS ->
   exists p', portfolio_adjust s d cd p = Ok p'
              /\ held p' = held p ++ [strncpy15 s]
              /\ count p' = count p + 1
              /\ quantities p' !! Z.to_nat (count p) = Some (int_wrap (0 + d))
              /\ quantity_of p' s = Ok 0)
  /\ (count p = MAX_POSITIONS ->
      portfolio_adjust s d cd p = Undefined (OutOfBounds "symbols" 32)).
Proof.
  intros Hsz Hfit Hlong.
  assert (Habsent : forall l, Forall c_symbol l -> index_from l s 0 = -1).
  { intros l Hl. apply index_from_absent. intros x Hx.
    rewrite Forall_forall in Hl. specialize (Hl x Hx).
    unfold strcmp_eq. apply String.eqb_neq. intros E.
    rewrite (c_symbol_c_str x Hl) in E. apply c_symbol_length in Hl. rewrite E in Hl. lia. }
  pose proof Hsz as (Hsym & Hqty & Hc). unfold MAX_POSITIONS in *.
  rewrite portfolio_adjust_cases by assumption. rewrite (Habsent _ Hfit).
  change (-1 <? 0) with true. cbv iota. unfold MAX_POSITIONS. split.
  - intros Hlt. pose proof Hlt as Hlt'. apply Z.ltb_lt in Hlt'. rewrite Hlt'.
    eexists. split; [reflexivity|].
    assert (Hheld : held (mkPortfolio (<[Z.to_nat (count p) := strncpy15 s]> (symbols p))
                            (<[Z.to_nat (count p) := int_wrap (0 + d)]> (quantities p))
                            (count p + 1) (cash p + cd)%float)
                    = held p ++ [strncpy15 s]).
    { unfold held. cbn. apply take_store; [lia | rewrite Hsym; lia]. }
    split; [exact Hheld|]. split; [reflexivity|]. split.
    + cbn. apply list_lookup_insert_eq. rewrite Hqty. lia.
    + rewrite quantity_of_reading.
      * unfold reading. rewrite Habsent; [reflexivity|].
        rewrite Hheld. apply Forall_app. split; [exact Hfit|].
        apply Forall_singleton, strncpy15_fits.
      * unfold sized, MAX_POSITIONS. cbn. rewrite !length_insert.
        repeat split; (assumption || lia).
  - intros Hfull. rewrite Hfull. reflexivity.
Qed.

(** Buying 100 of a 17-character symbol on an empty Portfolio. *)
Lemma long_symbol_never_found_first :
  exists p', portfolio_adjust "ABCDEFGHIJKLMNOPQ" 100 0 (portfolio_init 1000000) = Ok p'
             /\ held p' = ["ABCDEFGHIJKLMNO"]
             /\ quantity_of p' "ABCDEFGHIJKLMNOPQ" = Ok 0.
Proof.
  destruct (proj1 (long_symbol_never_found (portfolio_init 1000000)
                     "ABCDEFGHIJKLMNOPQ" 100 0
                     ltac:(repeat split; vm_compute; (reflexivity || discriminate))
                     ltac:(apply Forall_nil_2)
                     ltac:(vm_compute; lia))
                  ltac:(vm_compute; reflexivity))
    as (p' & H & Hheld & _ & _ & Hq).
  exists p'. split; [exact H|]. split; [exact Hheld | exact Hq].
Defined.

End CReceiver.

(** ** What [printf] writes, and one identity of double arithmetic *)

Section Formatting.
Import Printf.
Implicit Types (s t : string).

(** IEEE subtraction is addition of the opposite; the C receiver adds
    [-(qty * price)] where the C++ one subtracts [qty * price]. *)
Lemma add_opp_sub (x y : float) : (x + - y)%float = (x - y)%float.
Proof.
  apply Prim2SF_inj. rewrite add_spec, sub_spec, opp_spec.
  unfold SF64add, SF64sub, SFadd, SFsub, SFopp.
  destruct (Prim2SF x) as [sx|sx| |sx mx ex], (Prim2SF y) as [sy|sy| |sy my ey];
    try reflexivity; destruct sx, sy; reflexivity.
Qed.

Lemma c_str_cons c s :
  Ascii.eqb c Ascii.zero = false -> c_str s = s -> c_str (String c s) = String c s.
Proof. intros E H. cbn [c_str]. now rewrite E, H. Qed.

Lemma c_str_app s t : c_str s = s -> c_str t = t -> c_str (s +:+ t) = s +:+ t.
Proof.
  intros Hs Ht. induction s as [|c s IH]; [exact Ht|].
  cbn [c_str] in Hs. destruct (Ascii.eqb c Ascii.zero) eqn:E; [discriminate|].
  injection Hs as Hs. change (String c s +:+ t) with (String c (s +:+ t)).
  apply c_str_cons; [exact E | now apply IH].
Qed.

Lemma c_str_substring n s : c_str s = s -> c_str (String.substring 0 n s) = String.substring 0 n s.
Proof. intros <-. apply c_str_prefix. Qed.

Lemma c_str_pretty_N_go (x : N) s : c_str s = s -> c_str (pretty_N_go x s) = pretty_N_go x s.
Proof.
  revert s. induction (N.lt_wf_0 x) as [x _ IH]; intros s Hs.
  assert (x = 0 \/ 0 < x)%N as [->|Hx] by lia; [now rewrite pretty_N_go_0|].
  rewrite pretty_N_go_step by assumption. apply IH; [now apply N.div_lt|].
  apply c_str_cons; [|exact Hs].
  unfold pretty_N_char. now repeat case_match.
Qed.

Lemma c_str_pretty_N (x : N) : c_str (pretty x) = pretty x.
Proof.
  unfold pretty, pretty_N. case_decide; [reflexivity|]. now apply c_str_pretty_N_go.
Qed.

Lemma c_str_pretty_Z (z : Z) : c_str (pretty z) = pretty z.
Proof.
  destruct z as [|x|x]; [reflexivity| |].
  - apply (c_str_pretty_N (N.pos x)).
  - apply (c_str_app "-"); [reflexivity | apply (c_str_pretty_N (N.pos x))].
Qed.

Lemma c_str_fmt_2f (x : float) : c_str (fmt_2f x) = fmt_2f x.
Proof.
  assert (Hsign : forall b, c_str (sign_str b) = sign_str b) by now intros [].
  assert (Htwo : forall n, c_str (two_digits n) = two_digits n).
  { intros n. unfold two_digits. apply c_str_app; [now case_match | apply c_str_pretty_Z]. }
  unfold fmt_2f. destruct (Prim2SF x) as [b|b| |b m e]; cbv zeta.
  - now apply c_str_app.
  - now apply c_str_app.
  - reflexivity.
  - apply c_str_app; [apply Hsign|]. apply c_str_app; [apply c_str_pretty_Z|].
    apply c_str_app; [reflexivity | apply Htwo].
Qed.

(** [%d] of a non-negative [int] and [%zu] print the same digits. *)
Lemma fmt_d_fmt_zu (n : nat) : fmt_d (Z.of_nat n) = fmt_zu n.
Proof. unfold fmt_d, fmt_zu. now destruct n. Qed.

End Formatting.

(** ** The two programs side by side *)

Section Agreement.
Import Printf PureC Relate.
Implicit Types (p : Portfolio) (m : Modern.Portfolio) (cmd : TradeCommand).

Lemma describe_agrees cmd :
  cmd_describe cmd 128 = c_str (Modern.action_description (action_of cmd)).
Proof.
  unfold cmd_describe, action_of, snprintf.
  destruct (type cmd); cbn [Modern.action_description];
    unfold Modern.BuyTrade.description, Modern.SellTrade.description, snprintf;
    cbn [Modern.BuyTrade.symbol Modern.BuyTrade.quantity Modern.BuyTrade.price
         Modern.SellTrade.symbol Modern.SellTrade.quantity Modern.SellTrade.price];
    (rewrite c_str_substring; [reflexivity|]);
    repeat (apply c_str_app;
            [first [reflexivity | apply c_str_pretty_Z | apply c_str_idem | apply c_str_fmt_2f]|]);
    apply c_str_fmt_2f.
Qed.

Lemma same_reading p m s :
  well_formed p -> same_receiver p m -> c_symbol s -> reading p s = Modern.quantity m s.
Proof.
  intros Hwf [_ Hq] Hs. specialize (Hq s Hs).
  rewrite quantity_of_reading in Hq by apply Hwf. now injection Hq.
Qed.

Lemma held_grows p p' s x :
  (s ∈ held p /\ held p' = held p) \/ ((s ∉ held p) /\ held p' = held p ++ [s]) ->
  (x ∈ held p -> x ∈ held p') /\ s ∈ held p'.
Proof.
  intros [[Hin ->]|[_ ->]]; [now split|]. split.
  - intros Hx. apply elem_of_app. now left.
  - apply elem_of_app. right. apply list_elem_of_here.
Qed.

(** One adjustment on the C side against one map update on the C++ side. *)
Lemma adjust_agrees p m s d cd p' v c' :
  well_formed p -> c_symbol s -> same_receiver p m ->
  portfolio_adjust s d cd p = Ok p' ->
  int_wrap (Modern.quantity m s + d) = v ->
  (Modern.cash_ m + cd)%float = c' ->
  well_formed p'
  /\ same_receiver p' (Modern.mkPortfolio (<[s := v]> (Modern.positions_ m)) c')
  /\ cash p' = c'
  /\ (forall x, x ∈ held p -> x ∈ held p') /\ s ∈ held p'.
Proof.
  intros Hwf Hs Hsame A Hv Hc.
  destruct (adjust_reading _ _ _ _ _ Hwf Hs A) as (Hwf' & Hq & Hother & Hcash & Hheld).
  assert (Hcash' : cash p' = c') by (rewrite Hcash, <- Hc; now destruct Hsame as [-> _]).
  split; [exact Hwf'|]. split; [|split; [exact Hcash'|]].
  - split; [exact Hcash'|]. intros x Hx.
    rewrite quantity_of_reading by apply Hwf'. f_equal.
    rewrite quantity_insert. destruct (decide (s = x)) as [<-|Hne].
    + now rewrite Hq, (same_reading p m s).
    + rewrite Hother by (assumption || congruence). now apply same_reading.
  - split; [intros x|]; now apply (held_grows p p' s).
Qed.

Lemma cmd_execute_agrees cmd p m p' out :
  well_formed p -> c_symbol (symbol cmd) -> same_receiver p m ->
  cmd_execute cmd p = Ok (p', out) ->
  well_formed p'
  /\ same_receiver p' (Modern.execute_action (action_of cmd) m).1
  /\ out = (Modern.execute_action (action_of cmd) m).2
  /\ (forall x, x ∈ held p -> x ∈ held p') /\ symbol cmd ∈ held p'.
Proof.
  intros Hwf Hs Hsame H. unfold cmd_execute, action_of in *.
  destruct (type cmd); unfold portfolio_buy, portfolio_sell in H;
    (destruct (portfolio_adjust _ _ _ p) as [p1|] eqn:A; cbn in H; [|discriminate H]);
    injection H as <- <-; cbn [Modern.execute_action Modern.buy Modern.sell fst snd
      Modern.BuyTrade.symbol Modern.BuyTrade.quantity Modern.BuyTrade.price
      Modern.SellTrade.symbol Modern.SellTrade.quantity Modern.SellTrade.price].
  - destruct (adjust_agrees _ _ _ _ _ _ _ _ Hwf Hs Hsame A eq_refl (add_opp_sub _ _))
      as (Hwf' & Hsame' & Hcash & Hgrow).
    split; [exact Hwf'|]. split; [exact Hsame'|]. split; [now rewrite Hcash | exact Hgrow].
  - destruct (adjust_agrees _ _ _ _ _ _
               (int_wrap (Modern.quantity m (symbol cmd) - quantity cmd)) _
               Hwf Hs Hsame A (int_wrap_add_wrap _ _) eq_refl)
      as (Hwf' & Hsame' & Hcash & Hgrow).
    split; [exact Hwf'|]. split; [exact Hsame'|]. split; [now rewrite Hcash | exact Hgrow].
Qed.

Lemma cmd_undo_agrees cmd p m p' out :
  well_formed p -> c_symbol (symbol cmd) -> same_receiver p m ->
  cmd_undo cmd p = Ok (p', out) ->
  well_formed p'
  /\ same_receiver p' (Modern.undo_action (action_of cmd) m).1
  /\ out = (Modern.undo_action (action_of cmd) m).2
  /\ (forall x, x ∈ held p -> x ∈ held p') /\ symbol cmd ∈ held p'.
Proof.
  intros Hwf Hs Hsame H. unfold cmd_undo, action_of in *.
  destruct (type cmd); unfold portfolio_reverse_buy, portfolio_reverse_sell in H;
    (destruct (portfolio_adjust _ _ _ p) as [p1|] eqn:A; cbn in H; [|discriminate H]);
    injection H as <- <-; cbn [Modern.undo_action Modern.reverse_buy Modern.reverse_sell
      fst snd
      Modern.BuyTrade.symbol Modern.BuyTrade.quantity Modern.BuyTrade.price
      Modern.SellTrade.symbol Modern.SellTrade.quantity Modern.SellTrade.price].
  - destruct (adjust_agrees _ _ _ _ _ _
               (int_wrap (Modern.quantity m (symbol cmd) - quantity cmd)) _
               Hwf Hs Hsame A (int_wrap_add_wrap _ _) eq_refl)
      as (Hwf' & Hsame' & Hcash & Hgrow).
    split; [exact Hwf'|]. split; [exact Hsame'|]. split; [now rewrite Hcash | exact Hgrow].
  - destruct (adjust_agrees _ _ _ _ _ _ _ _ Hwf Hs Hsame A eq_refl (add_opp_sub _ _))
      as (Hwf' & Hsame' & Hcash & Hgrow).
    split; [exact Hwf'|]. split; [exact Hsame'|]. split; [now rewrite Hcash | exact Hgrow].
Qed.

(** What a defined history call did, read off its definition. *)

Lemma history_execute_inv cmd st st' :
  within_capacity (history st) ->
  history_execute cmd st = Ok st' ->
  exists p' out,
    cmd_execute cmd (portfolio st) = Ok (p', out)
    /\ portfolio st' = p' /\ stdout st' = stdout st ++ out
    /\ executed_stack (history st') = executed_stack (history st) ++ [cmd]
    /\ undone_stack (history st') = [].
Proof.
  intros (_ & He & _ & _) H. unfold history_execute in H.
  destruct (cmd_execute cmd (portfolio st)) as [[p out]|]; cbn in H; [|discriminate].
  destruct (array_set _ _ _ _ _) as [ex|] eqn:S; cbn in H; [|discriminate].
  apply array_set_some in S as (Hi & Hlen & ->). unfold MAX_HISTORY in Hi.
  injection H as <-. exists p, out. repeat split; try reflexivity.
  unfold executed_stack. cbn.
  rewrite int_wrap_id by (unfold int_range; lia). now apply take_store.
Qed.

Lemma history_undo_inv st r st' :
  within_capacity (history st) ->
  history_undo st = Ok (r, st') ->
  (r = 0 /\ st' = st /\ executed_stack (history st) = [])
  \/ (r = 1 /\ exists cmd p' out,
        cmd_undo cmd (portfolio st) = Ok (p', out)
        /\ portfolio st' = p' /\ stdout st' = stdout st ++ out
        /\ executed_stack (history st) = executed_stack (history st') ++ [cmd]
        /\ undone_stack (history st') = undone_stack (history st) ++ [cmd]).
Proof.
  intros (_ & He & Hu & Hsum) H. unfold history_undo in H. unfold MAX_HISTORY in Hsum.
  destruct (exec_count (history st) =? 0) eqn:E0.
  { injection H as <- <-. left. apply Z.eqb_eq in E0.
    unfold executed_stack. now rewrite E0. }
  apply Z.eqb_neq in E0. right.
  rewrite !int_wrap_id in H by (unfold int_range; lia).
  destruct (array_get _ _ _ _) as [cmd|] eqn:G; cbn in H; [|discriminate].
  apply array_get_some in G as [_ G].
  destruct (cmd_undo cmd (portfolio st)) as [[p out]|] eqn:U; cbn in H; [|discriminate].
  destruct (array_set _ _ _ _ _) as [un|] eqn:S; cbn in H; [|discriminate].
  apply array_set_some in S as (Hi & Hlen & ->). unfold MAX_HISTORY in Hi.
  injection H as <- <-. split; [reflexivity|]. exists cmd, p, out.
  split; [exact U|]. repeat split; try reflexivity; unfold executed_stack, undone_stack; cbn.
  - apply take_load; [lia | exact G].
  - now apply take_store.
Qed.

Lemma history_redo_inv st r st' :
  within_capacity (history st) ->
  history_redo st = Ok (r, st') ->
  (r = 0 /\ st' = st /\ undone_stack (history st) = [])
  \/ (r = 1 /\ exists cmd p' out,
        cmd_execute cmd (portfolio st) = Ok (p', out)
        /\ portfolio st' = p' /\ stdout st' = stdout st ++ out
        /\ undone_stack (history st) = undone_stack (history st') ++ [cmd]
        /\ executed_stack (history st') = executed_stack (history st) ++ [cmd]).
Proof.
  intros (_ & He & Hu & Hsum) H. unfold history_redo in H. unfold MAX_HISTORY in Hsum.
  destruct (undo_count (history st) =? 0) eqn:E0.
  { injection H as <- <-. left. apply Z.eqb_eq in E0.
    unfold undone_stack. now rewrite E0. }
  apply Z.eqb_neq in E0. right.
  rewrite !int_wrap_id in H by (unfold int_range; lia).
  destruct (array_get _ _ _ _) as [cmd|] eqn:G; cbn in H; [|discriminate].
  apply array_get_some in G as [_ G].
  destruct (cmd_execute cmd (portfolio st)) as [[p out]|] eqn:U; cbn in H; [|discriminate].
  destruct (array_set _ _ _ _ _) as [ex|] eqn:S; cbn in H; [|discriminate].
  apply array_set_some in S as (Hi & Hlen & ->). unfold MAX_HISTORY in Hi.
  injection H as <- <-. split; [reflexivity|]. exists cmd, p, out.
  split; [exact U|]. repeat split; try reflexivity; unfold executed_stack, undone_stack; cbn.
  - apply take_load; [lia | exact G].
  - now apply take_store.
Qed.

Lemma known_grows p p' (l : list TradeCommand) :
  (forall x, x ∈ held p -> x ∈ held p') ->
  Forall (fun cmd => symbol cmd ∈ held p) l -> Forall (fun cmd => symbol cmd ∈ held p') l.
Proof. intros Hg H. eapply Forall_impl; [exact H|]. intros cmd. apply Hg. Qed.

(** One call: whenever the C call is defined, the C++ call leaves the same
    state. *)
Lemma perform_agrees call c (m : Modern.State) c' :
  same_state c m -> call_fits call ->
  perform call c = Ok c' ->
  same_state c' (Modern.perform (call_of call) m).
Proof.
  intros [Hcap Hwf Hsame Hex Hun Hfit Hknown Hout] Hcall H.
  pose proof (perform_within_capacity _ _ _ Hcap H) as Hcap'.
  destruct call as [cmd| |]; cbn [perform call_of Modern.perform call_fits] in *.
  - (* execute *)
    destruct (history_execute_inv _ _ _ Hcap H) as (p' & out & X & Hp & Ho & Hex' & Hun').
    destruct (cmd_execute_agrees _ _ _ _ _ Hwf Hcall Hsame X) as (Hwf' & Hsame' & -> & Hg & Hin).
    rewrite execute_eq. apply Forall_app in Hfit as [Hfe _].
    apply Forall_app in Hknown as [Hke _].
    split; cbn; rewrite ?Hp, ?Ho, ?Hex', ?Hun', ?app_nil_r; try assumption.
    + now rewrite fmap_app, Hex.
    + reflexivity.
    + apply Forall_app. split; [exact Hfe | now apply Forall_singleton].
    + apply Forall_app. split; [now apply (known_grows (portfolio c)) | now apply Forall_singleton].
    + now rewrite Hout.
  - (* undo *)
    destruct (history_undo c) as [[r st]|] eqn:U; cbn in H; [|discriminate]. injection H as ->.
    destruct (history_undo_inv _ _ _ Hcap U)
      as [(_ & -> & E)|(_ & cmd & p' & out & X & Hp & Ho & Hex' & Hun')].
    + rewrite undo_empty by (rewrite <- Hex, E; reflexivity). now split.
    + rewrite Hex' in Hex, Hfit, Hknown. rewrite fmap_app in Hex.
      rewrite !Forall_app, Forall_singleton in Hfit, Hknown.
      destruct Hfit as [[Hfe Hfc] Hfu]. destruct Hknown as [[Hke Hkc] Hku].
      destruct (cmd_undo_agrees _ _ _ _ _ Hwf Hfc Hsame X) as (Hwf' & Hsame' & -> & Hg & Hin).
      rewrite (undo_push m (action_of <$> executed_stack (history c')) (action_of cmd))
        by (symmetry; exact Hex).
      split; cbn; rewrite ?Hp, ?Ho, ?Hun'; try assumption.
      * reflexivity.
      * now rewrite fmap_app, Hun.
      * rewrite !Forall_app, Forall_singleton. tauto.
      * rewrite !Forall_app, Forall_singleton.
        repeat split; try assumption; now apply (known_grows (portfolio c)).
      * now rewrite Hout.
  - (* redo *)
    destruct (history_redo c) as [[r st]|] eqn:U; cbn in H; [|discriminate]. injection H as ->.
    destruct (history_redo_inv _ _ _ Hcap U)
      as [(_ & -> & E)|(_ & cmd & p' & out & X & Hp & Ho & Hun' & Hex')].
    + rewrite redo_empty by (rewrite <- Hun, E; reflexivity). now split.
    + rewrite Hun' in Hun, Hfit, Hknown. rewrite fmap_app in Hun.
      rewrite !Forall_app, Forall_singleton in Hfit, Hknown.
      destruct Hfit as [Hfe [Hfu Hfc]]. destruct Hknown as [Hke [Hku Hkc]].
      destruct (cmd_execute_agrees _ _ _ _ _ Hwf Hfc Hsame X) as (Hwf' & Hsame' & -> & Hg & Hin).
      rewrite (redo_push m (action_of <$> undone_stack (history c')) (action_of cmd))
        by (symmetry; exact Hun).
      split; cbn; rewrite ?Hp, ?Ho, ?Hex'; try assumption.
      * now rewrite fmap_app, Hex.
      * reflexivity.
      * rewrite !Forall_app, Forall_singleton. tauto.
      * rewrite !Forall_app, Forall_singleton.
        repeat split; try assumption; now apply (known_grows (portfolio c)).
      * now rewrite Hout.
Qed.

Lemma run_agrees cs c (m : Modern.State) c' :
  same_state c m -> Forall call_fits cs ->
  run cs c = Ok c' ->
  same_state c' (Modern.run (call_of <$> cs) m).
Proof.
  revert c m. induction cs as [|call cs IH]; intros c m Hsame Hfits H.
  - now injection H as <-.
  - apply Forall_cons in Hfits as [Hcall Hfits]. cbn [run] in H.
    destruct (perform call c) as [c1|] eqn:P; cbn in H; [|discriminate].
    cbn. apply (IH c1); [|assumption..]. now apply (perform_agrees call c).
Qed.

Lemma fresh_agrees h cash0 :
  well_sized h ->
  same_state (fresh h (portfolio_init cash0)) (Modern.fresh (Modern.Portfolio_new cash0)).
Proof.
  intros [Hex Hun].
  assert (Hwf : well_formed (portfolio_init cash0)).
  { split; [repeat split; cbn; (reflexivity || discriminate) | apply NoDup_nil_2 | apply Forall_nil_2]. }
  split; cbn; try reflexivity; try apply Forall_nil_2; try exact Hwf.
  - unfold within_capacity, well_sized, MAX_HISTORY. cbn. repeat split; (assumption || lia).
  - split; [reflexivity|]. intros s Hs.
    rewrite quantity_of_reading by apply Hwf. reflexivity.
Qed.

Lemma print_from_numbered h i n :
  length (executed h) = Z.to_nat MAX_HISTORY ->
  0 <= i -> i + Z.of_nat n <= MAX_HISTORY ->
  print_from h i n = Ok (numbered (take n (drop (Z.to_nat i) (executed h))) i).
Proof.
  intros Hlen. revert i. induction n as [|n IH]; intros i Hi Hn; [reflexivity|].
  cbn [print_from]. unfold MAX_HISTORY in *.
  destruct (lookup_lt_is_Some_2 (executed h) (Z.to_nat i)) as [cmd Hcmd]; [lia|].
  rewrite (array_get_inside _ _ _ _ cmd) by (lia || assumption). cbn [mbind outcome_bind].
  rewrite IH by lia. cbn [mbind outcome_bind].
  rewrite (drop_S _ cmd _ Hcmd). cbn [take numbered].
  now replace (Z.to_nat (i + 1)) with (S (Z.to_nat i)) by lia.
Qed.

Lemma numbered_lines l (k : nat) :
  numbered l (Z.of_nat k)
  = imap (fun j => Modern.history_line (k + j)) (action_of <$> l).
Proof.
  revert k. induction l as [|cmd l IH]; intros k; [reflexivity|].
  cbn [numbered fmap list_fmap imap]. f_equal.
  - unfold Modern.history_line. rewrite <- describe_agrees, <- fmt_d_fmt_zu.
    now replace (Z.of_nat (k + 0 + 1)) with (Z.of_nat k + 1) by lia.
  - replace (Z.of_nat k + 1) with (Z.of_nat (S k)) by lia. rewrite IH.
    apply imap_ext. intros j a _. unfold compose.
    now replace (S k + j)%nat with (k + S j)%nat by lia.
Qed.

Lemma history_print_lines h :
  within_capacity h ->
  history_print h
  = Ok (Modern.history_lines (Modern.mkHistory (action_of <$> executed_stack h) [])).
Proof.
  intros ((Hex & _) & He & Hu & Hsum). unfold history_print. unfold MAX_HISTORY in *.
  rewrite print_from_numbered by (unfold MAX_HISTORY; (assumption || lia)).
  cbn [mbind outcome_bind]. unfold Modern.history_lines. cbn [Modern.executed_].
  change (Z.to_nat 0) with 0%nat. rewrite drop_0.
  change 0 with (Z.of_nat 0) at 1. rewrite numbered_lines. fold (executed_stack h).
  do 3 f_equal.
  destruct (exec_count h =? 0) eqn:E0.
  - apply Z.eqb_eq in E0. unfold executed_stack. rewrite E0. reflexivity.
  - apply Z.eqb_neq in E0. rewrite decide_False; [reflexivity|].
    intros E. apply (f_equal length) in E. rewrite length_fmap in E.
    unfold executed_stack in E. rewrite length_take in E. cbn in E. lia.
Qed.

Lemma cash_never_nan_run cs (st : Modern.State) :
  cash_never_nan cs st = true ->
  PrimFloat.is_nan (Modern.cash_ (Modern.portfolio (Modern.run cs st))) = false.
Proof.
  revert st. induction cs as [|call cs IH]; intros st H; cbn [cash_never_nan] in H;
    apply andb_true_iff in H as [H0 H].
  - now apply negb_true_iff in H0.
  - now apply IH.
Qed.

(** X5.  The two programs agree.  From a history that was initialised and a
    Portfolio opened with the same cash, whenever a sequence of
    execute/undo/redo calls is defined in the C program (its commands built
    to fit their [char[16]]) and the cash is never a NaN, it leaves what the
    same calls leave in the C++ program: the same output line for line, the
    same cash bit for bit, the same quantity of every symbol that fits a
    cell, and the same two stacks. *)
Theorem programs_agree cs h cash0 c :
  well_sized h -> Forall call_fits cs ->
  cash_never_nan (call_of <$> cs) (Modern.fresh (Modern.Portfolio_new cash0)) = true ->
  run cs (fresh h (portfolio_init cash0)) = Ok c ->
  let m := Modern.run (call_of <$> cs) (Modern.fresh (Modern.Portfolio_new cash0)) in
  stdout c = Modern.stdout m
  /\ cash (portfolio c) = Modern.cash_ (Modern.portfolio m)
  /\ PrimFloat.is_nan (cash (portfolio c)) = false
  /\ (forall s, c_symbol s ->
        quantity_of (portfolio c) s = Ok (Modern.quantity (Modern.portfolio m) s))
  /\ action_of <$> executed_stack (history c) = Modern.executed_ (Modern.history m)
  /\ action_of <$> undone_stack (history c) = Modern.undone_ (Modern.history m).
Proof.
  intros Hsz Hfits Hnan H m.
  destruct (run_agrees cs _ _ c (fresh_agrees h cash0 Hsz) Hfits H)
    as [_ _ [Hcash Hq] Hex Hun _ _ Hout].
  split; [exact Hout|]. split; [exact Hcash|]. split.
  - rewrite Hcash. now apply cash_never_nan_run.
  - repeat split; assumption.
Qed.

Lemma zeroed_well_sized : well_sized zeroed.
Proof. split; reflexivity. Qed.

Lemma walkthrough_fits : Forall call_fits walkthrough.
Proof. repeat constructor. Qed.

(** The walkthrough of [main] in both programs. *)
Lemma programs_agree_walkthrough :
  exists c,
    run walkthrough (fresh zeroed (portfolio_init 1000000)) = Ok c
    /\ stdout c
       = Modern.stdout (Modern.run (call_of <$> walkthrough)
                          (Modern.fresh (Modern.Portfolio_new 1000000)))
    /\ cash (portfolio c) = 974437.5%float
    /\ quantity_of (portfolio c) "GOOGL" = Ok 50.
Proof.
  destruct (run walkthrough (fresh zeroed (portfolio_init 1000000))) as [c|f] eqn:E;
    [|vm_compute in E; discriminate E].
  destruct (programs_agree walkthrough zeroed 1000000 c zeroed_well_sized walkthrough_fits
              ltac:(vm_compute; reflexivity) E)
    as (Hout & Hcash & _ & Hq & _ & _).
  exists c. split; [reflexivity|]. split; [exact Hout|]. split.
  - rewrite Hcash. vm_compute. reflexivity.
  - rewrite (Hq "GOOGL") by reflexivity. vm_compute. reflexivity.
Defined.

(** X6.  The listings agree: after any defined sequence of calls,
    [history_print] writes exactly the lines [print_history] writes for
    the same calls in the C++ program. *)
Theorem listings_agree cs h cash0 c :
  well_sized h -> Forall call_fits cs ->
  run cs (fresh h (portfolio_init cash0)) = Ok c ->
  history_print (history c)
  = Ok (Modern.history_lines
          (Modern.history (Modern.run (call_of <$> cs)
                             (Modern.fresh (Modern.Portfolio_new cash0))))).
Proof.
  intros Hsz Hfits H.
  destruct (run_agrees cs _ _ c (fresh_agrees h cash0 Hsz) Hfits H)
    as [Hcap _ _ Hex _ _ _ _].
  rewrite history_print_lines by assumption.
  unfold Modern.history_lines. cbn [Modern.executed_]. now rewrite Hex.
Qed.

(** The listing after the walkthrough. *)
Lemma listings_agree_walkthrough :
  exists c,
    run walkthrough (fresh zeroed (portfolio_init 1000000)) = Ok c
    /\ history_print (history c)
       = Ok ["  Trade History:"; "    1. BUY 100 AAPL @ $185.50";
             "    2. BUY 50 GOOGL @ $140.25"].
Proof.
  destruct (run walkthrough (fresh zeroed (portfolio_init 1000000))) as [c|f] eqn:E;
    [|vm_compute in E; discriminate E].
  exists c. split; [reflexivity|].
  rewrite (listings_agree walkthrough zeroed 1000000 c zeroed_well_sized walkthrough_fits E).
  vm_compute. reflexivity.
Defined.

End Agreement.

(** ** Defined behaviour of the C program *)

Section Safety.
Import Printf PureC Relate.
Implicit Types (p : Portfolio) (cmd : TradeCommand) (T : list string).

Lemma held_length p : sized p -> length (held p) = Z.to_nat (count p).
Proof.
  intros (Hlen & _ & Hc). unfold held, MAX_POSITIONS in *. rewrite length_take. lia.
Qed.

(** A symbol among at most 32 has a cell or finds one free. *)
Lemma held_room T p s :
  well_formed p -> (forall x, x ∈ held p -> x ∈ T) -> s ∈ T ->
  (length (remove_dups T) <= 32)%nat ->
  s ∈ held p \/ count p < MAX_POSITIONS.
Proof.
  intros [Hsz Hnd _] Hsub Hs HT.
  destruct (decide (s ∈ held p)) as [Hin|Hout]; [now left|right].
  assert (Hle : (length (s :: held p) <= length (remove_dups T))%nat).
  { apply submseteq_length, NoDup_submseteq; [now constructor|].
    intros x Hx. apply elem_of_remove_dups.
    apply elem_of_cons in Hx as [->|Hx]; auto. }
  cbn [length] in Hle. rewrite held_length in Hle by assumption.
  destruct Hsz as (_ & _ & Hc). unfold MAX_POSITIONS in *. lia.
Qed.

Lemma cmd_execute_defined cmd p :
  well_formed p -> c_symbol (symbol cmd) ->
  symbol cmd ∈ held p \/ count p < MAX_POSITIONS ->
  exists p' out, cmd_execute cmd p = Ok (p', out).
Proof.
  intros Hwf Hs Hroom. unfold cmd_execute, portfolio_buy, portfolio_sell.
  destruct (type cmd);
    match goal with
    | |- context [portfolio_adjust ?s ?d ?cd p] =>
        destruct (adjust_defined p s d cd Hwf Hs Hroom) as [p' ->]
    end; cbn; eauto.
Qed.

Lemma cmd_undo_defined cmd p :
  well_formed p -> c_symbol (symbol cmd) ->
  symbol cmd ∈ held p \/ count p < MAX_POSITIONS ->
  exists p' out, cmd_undo cmd p = Ok (p', out).
Proof.
  intros Hwf Hs Hroom. unfold cmd_undo, portfolio_reverse_buy, portfolio_reverse_sell.
  destruct (type cmd);
    match goal with
    | |- context [portfolio_adjust ?s ?d ?cd p] =>
        destruct (adjust_defined p s d cd Hwf Hs Hroom) as [p' ->]
    end; cbn; eauto.
Qed.

Lemma cmd_execute_held cmd p p' out x :
  well_formed p -> c_symbol (symbol cmd) ->
  cmd_execute cmd p = Ok (p', out) ->
  x ∈ held p' -> x ∈ held p \/ x = symbol cmd.
Proof.
  intros Hwf Hs H Hx. destruct (cmd_execute_adjust _ _ _ _ H) as [cd A].
  destruct (adjust_reading _ _ _ _ _ Hwf Hs A) as (_ & _ & _ & _ & [[_ E]|[_ E]]);
    rewrite E in Hx; [now left|].
  apply elem_of_app in Hx as [Hx|Hx]; [now left|right].
  now apply list_elem_of_singleton in Hx.
Qed.

Lemma cmd_undo_held cmd p p' out x :
  well_formed p -> c_symbol (symbol cmd) ->
  cmd_undo cmd p = Ok (p', out) ->
  x ∈ held p' -> x ∈ held p \/ x = symbol cmd.
Proof.
  intros Hwf Hs H Hx. destruct (cmd_undo_adjust cmd p) as (cd & line & E).
  rewrite E in H. destruct (portfolio_adjust _ _ _ p) as [p1|] eqn:A; [|discriminate].
  cbn in H. injection H as -> _.
  destruct (adjust_reading _ _ _ _ _ Hwf Hs A) as (_ & _ & _ & _ & [[_ E']|[_ E']]);
    rewrite E' in Hx; [now left|].
  apply elem_of_app in Hx as [Hx|Hx]; [now left|right].
  now apply list_elem_of_singleton in Hx.
Qed.

Lemma stack_lengths h :
  within_capacity h ->
  length (executed_stack h) = Z.to_nat (exec_count h)
  /\ length (undone_stack h) = Z.to_nat (undo_count h).
Proof.
  intros ((Hex & Hun) & He & Hu & Hsum). unfold executed_stack, undone_stack, MAX_HISTORY in *.
  rewrite !length_take. lia.
Qed.

(** One call within the budget is defined. *)
Lemma perform_defined T call c (m : Modern.State) :
  same_state c m -> call_fits call ->
  (length (executed_stack (history c)) + length (undone_stack (history c))
   + executes [call] <= 64)%nat ->
  (forall x, x ∈ held (portfolio c) -> x ∈ T) ->
  (forall x, x ∈ traded [call] -> x ∈ T) ->
  (length (remove_dups T) <= 32)%nat ->
  exists c', perform call c = Ok c'.
Proof.
  intros [Hcap Hwf Hsame Hex Hun Hfit Hknown Hout] Hcall Hbud Hsub Htr HT.
  destruct (stack_lengths _ Hcap) as [Le Lu]. rewrite Le, Lu in Hbud.
  pose proof Hcap as ((Hlex & Hlun) & He & Hu & Hsum). unfold MAX_HISTORY in *.
  destruct call as [cmd| |]; cbn [perform call_fits] in *.
  - (* execute *)
    assert (Hs : symbol cmd ∈ T) by (apply Htr; cbn; apply list_elem_of_here).
    destruct (cmd_execute_defined cmd _ Hwf Hcall (held_room T _ _ Hwf Hsub Hs HT))
      as (p' & out & X).
    unfold history_execute. rewrite X. cbn [mbind outcome_bind].
    change (executes [CallExecute cmd]) with 1%nat in Hbud.
    rewrite array_set_inside by (unfold MAX_HISTORY; lia). cbn. eauto.
  - (* undo *)
    unfold history_undo. destruct (exec_count (history c) =? 0) eqn:E0; [cbn; eauto|].
    apply Z.eqb_neq in E0.
    rewrite (int_wrap_id (exec_count (history c) - 1)) by (unfold int_range; lia).
    destruct (lookup_lt_is_Some_2 (executed (history c))
                (Z.to_nat (exec_count (history c) - 1))) as [cmd Hcmd]; [lia|].
    rewrite (array_get_inside _ _ _ _ cmd) by (unfold MAX_HISTORY; (lia || assumption)).
    cbn [mbind outcome_bind].
    assert (Hin : cmd ∈ executed_stack (history c) ++ undone_stack (history c)).
    { apply elem_of_app. left. unfold executed_stack.
      rewrite (take_load _ _ cmd) by (lia || assumption).
      apply elem_of_app. right. apply list_elem_of_here. }
    rewrite Forall_forall in Hfit, Hknown.
    destruct (cmd_undo_defined cmd _ Hwf (Hfit _ Hin) (or_introl (Hknown _ Hin)))
      as (p' & out & X).
    rewrite X. cbn [mbind outcome_bind].
    rewrite array_set_inside by (unfold MAX_HISTORY; lia). cbn. eauto.
  - (* redo *)
    unfold history_redo. destruct (undo_count (history c) =? 0) eqn:E0; [cbn; eauto|].
    apply Z.eqb_neq in E0.
    rewrite (int_wrap_id (undo_count (history c) - 1)) by (unfold int_range; lia).
    destruct (lookup_lt_is_Some_2 (undone (history c))
                (Z.to_nat (undo_count (history c) - 1))) as [cmd Hcmd]; [lia|].
    rewrite (array_get_inside _ _ _ _ cmd) by (unfold MAX_HISTORY; (lia || assumption)).
    cbn [mbind outcome_bind].
    assert (Hin : cmd ∈ executed_stack (history c) ++ undone_stack (history c)).
    { apply elem_of_app. right. unfold undone_stack.
      rewrite (take_load _ _ cmd) by (lia || assumption).
      apply elem_of_app. right. apply list_elem_of_here. }
    rewrite Forall_forall in Hfit, Hknown.
    destruct (cmd_execute_defined cmd _ Hwf (Hfit _ Hin) (or_introl (Hknown _ Hin)))
      as (p' & out & X).
    rewrite X. cbn [mbind outcome_bind].
    rewrite array_set_inside by (unfold MAX_HISTORY; lia). cbn. eauto.
Qed.

(** What one defined call does to the budget: the two stacks together grow
    by at most the trade it executes, and only its symbol gets a cell. *)
Lemma perform_budget T call c (m : Modern.State) c' :
  same_state c m -> call_fits call ->
  perform call c = Ok c' ->
  (forall x, x ∈ held (portfolio c) -> x ∈ T) ->
  (forall x, x ∈ traded [call] -> x ∈ T) ->
  (length (executed_stack (history c')) + length (undone_stack (history c'))
   <= length (executed_stack (history c)) + length (undone_stack (history c))
      + executes [call])%nat
  /\ (forall x, x ∈ held (portfolio c') -> x ∈ T).
Proof.
  intros [Hcap Hwf Hsame Hex Hun Hfit Hknown Hout] Hcall H Hsub Htr.
  rewrite Forall_forall in Hfit, Hknown.
  destruct call as [cmd| |]; cbn [perform call_fits] in *.
  - destruct (history_execute_inv _ _ _ Hcap H) as (p' & out & X & Hp & _ & -> & ->).
    split; [rewrite length_app; cbn; lia|].
    intros x Hx. rewrite Hp in Hx.
    destruct (cmd_execute_held _ _ _ _ _ Hwf Hcall X Hx) as [Hh| ->]; [now apply Hsub|].
    apply Htr. cbn. apply list_elem_of_here.
  - destruct (history_undo c) as [[r c1]|] eqn:U; [|discriminate]. cbn in H.
    injection H as ->.
    destruct (history_undo_inv _ _ _ Hcap U)
      as [(_ & -> & _)|(_ & cmd & p' & out & X & Hp & _ & Hs1 & Hs2)];
      [split; [lia | assumption]|].
    rewrite Hs1, Hs2, !length_app. split; [cbn; lia|].
    assert (Hin : cmd ∈ executed_stack (history c) ++ undone_stack (history c)).
    { apply elem_of_app. left. rewrite Hs1. apply elem_of_app. right. apply list_elem_of_here. }
    intros x Hx. rewrite Hp in Hx.
    destruct (cmd_undo_held _ _ _ _ _ Hwf (Hfit _ Hin) X Hx) as [Hh| ->]; apply Hsub;
      [assumption | now apply Hknown].
  - destruct (history_redo c) as [[r c1]|] eqn:U; [|discriminate]. cbn in H.
    injection H as ->.
    destruct (history_redo_inv _ _ _ Hcap U)
      as [(_ & -> & _)|(_ & cmd & p' & out & X & Hp & _ & Hs1 & Hs2)];
      [split; [lia | assumption]|].
    rewrite Hs1, Hs2, !length_app. split; [cbn; lia|].
    assert (Hin : cmd ∈ executed_stack (history c) ++ undone_stack (history c)).
    { apply elem_of_app. right. rewrite Hs1. apply elem_of_app. right. apply list_elem_of_here. }
    intros x Hx. rewrite Hp in Hx.
    destruct (cmd_execute_held _ _ _ _ _ Hwf (Hfit _ Hin) X Hx) as [Hh| ->]; apply Hsub;
      [assumption | now apply Hknown].
Qed.

Lemma traded_cons call cs : traded (call :: cs) = traded [call] ++ traded cs.
Proof. unfold traded. cbn. now destruct call. Qed.

Lemma run_defined_from T cs c (m : Modern.State) :
  same_state c m -> Forall call_fits cs ->
  (length (executed_stack (history c)) + length (undone_stack (history c))
   + executes cs <= 64)%nat ->
  (forall x, x ∈ held (portfolio c) -> x ∈ T) ->
  (forall x, x ∈ traded cs -> x ∈ T) ->
  (length (remove_dups T) <= 32)%nat ->
  exists c', run cs c = Ok c'.
Proof.
  intros Hst Hfits Hbud Hsub Htr HT. revert c m Hst Hbud Hsub.
  induction Hfits as [|call cs Hcall Hfits IH]; intros c m Hst Hbud Hsub; [cbn; eauto|].
  unfold executes in Hbud. rewrite traded_cons, length_app in Hbud.
  fold (executes [call]) (executes cs) in Hbud.
  assert (Htr1 : forall x, x ∈ traded [call] -> x ∈ T).
  { intros x Hx. apply Htr. rewrite traded_cons. apply elem_of_app. now left. }
  assert (Htr2 : forall x, x ∈ traded cs -> x ∈ T).
  { intros x Hx. apply Htr. rewrite traded_cons. apply elem_of_app. now right. }
  destruct (perform_defined T call c m Hst Hcall ltac:(lia) Hsub Htr1 HT) as [c1 P].
  destruct (perform_budget T call c m c1 Hst Hcall P Hsub Htr1) as [Hb1 Hsub1].
  cbn [run]. rewrite P. cbn [mbind outcome_bind].
  apply (IH Htr2 c1 (Modern.perform (call_of call) m)); [|lia|assumption].
  now apply (perform_agrees call c).
Qed.

(** X7.  Defined behaviour: on an initialised history and Portfolio, every
    sequence of execute/undo/redo calls that executes at most 64 trades
    ([MAX_HISTORY]) in at most 32 different symbols ([MAX_POSITIONS]), each
    fitting its [char[16]], runs to the end without indexing any of the
    four arrays out of bounds. *)
Theorem run_defined cs h cash0 :
  well_sized h -> Forall call_fits cs ->
  (executes cs <= 64)%nat ->
  (length (remove_dups (traded cs)) <= 32)%nat ->
  exists c, run cs (fresh h (portfolio_init cash0)) = Ok c.
Proof.
  intros Hsz Hfits Hex Hsym.
  apply (run_defined_from (traded cs) cs _ _ (fresh_agrees h cash0 Hsz) Hfits).
  - unfold executed_stack, undone_stack.
    cbn [fresh history history_init exec_count undo_count].
    change (Z.to_nat 0) with 0%nat. rewrite !take_0. cbn [length]. lia.
  - unfold held. cbn [fresh portfolio portfolio_init count].
    change (Z.to_nat 0) with 0%nat. rewrite take_0.
    intros x Hx. now apply elem_of_nil in Hx.
  - auto.
  - exact Hsym.
Qed.

(** Sixty-four trades in one symbol, then an undo and a redo: the most the
    history holds. *)
Lemma run_defined_sixty_four :
  exists c,
    run (replicate 64 (CallExecute one_share) ++ [CallUndo; CallRedo])
        (fresh zeroed (portfolio_init 1000000)) = Ok c.
Proof.
  apply (run_defined (replicate 64 (CallExecute one_share) ++ [CallUndo; CallRedo])
           zeroed 1000000).
  - split; reflexivity.
  - apply Forall_app. split; [|repeat constructor].
    apply Forall_replicate. vm_compute. reflexivity.
  - vm_compute. lia.
  - vm_compute. lia.
Defined.

End Safety.

(** ** Undoing and redoing everything on the C++ history *)

Section UndoAll.
Import Modern Vocabulary.
Implicit Types (p : Portfolio) (action : TradeAction) (st : State) (cs : list call).

Lemma run_app cs cs' st : run (cs ++ cs') st = run cs' (run cs st).
Proof. unfold run. apply fold_left_app. Qed.

Lemma quantities_replayed_run p0 cs :
  int_quantities p0 -> quantities_replayed p0 (run cs (fresh p0)).
Proof.
  intros Hp0. induction cs as [|c cs IH] using rev_ind; [intros s; reflexivity|].
  rewrite run_push. now apply quantities_replayed_perform.
Qed.

Lemma undo_action_one_line action p : length (undo_action action p).2 = 1%nat.
Proof. now destruct action. Qed.

Lemma execute_action_one_line action p : length (execute_action action p).2 = 1%nat.
Proof. now destruct action. Qed.

(** [length k] undos pop the last [length k] trades, newest first. *)
Lemma undo_each k st l :
  executed_ (history st) = l ++ k ->
  let st' := run (replicate (length k) CallUndo) st in
  executed_ (history st') = l
  /\ undone_ (history st') = undone_ (history st) ++ rev k
  /\ length (stdout st') = (length (stdout st) + length k)%nat.
Proof.
  revert st l. induction k as [|a k IH] using rev_ind; intros st l E st'; subst st'.
  - cbn. rewrite app_nil_r in *. repeat split; (assumption || lia).
  - rewrite length_app, Nat.add_1_r. cbn [length replicate].
    change (run (CallUndo :: ?cs) st) with (run cs (perform CallUndo st)).
    cbn [perform]. rewrite app_assoc in E. rewrite (undo_push _ _ _ E). cbn [snd].
    match goal with |- context [run _ ?s] => set (st1 := s) end.
    destruct (IH st1 l eq_refl) as (H1 & H2 & H3).
    rewrite H1, H2, H3. subst st1. cbn [history undone_ stdout].
    rewrite rev_app_distr, length_app, undo_action_one_line, <- app_assoc. cbn.
    repeat split; lia.
Qed.

Lemma redo_each k st l :
  undone_ (history st) = l ++ k ->
  let st' := run (replicate (length k) CallRedo) st in
  undone_ (history st') = l
  /\ executed_ (history st') = executed_ (history st) ++ rev k
  /\ length (stdout st') = (length (stdout st) + length k)%nat.
Proof.
  revert st l. induction k as [|a k IH] using rev_ind; intros st l E st'; subst st'.
  - cbn. rewrite app_nil_r in *. repeat split; (assumption || lia).
  - rewrite length_app, Nat.add_1_r. cbn [length replicate].
    change (run (CallRedo :: ?cs) st) with (run cs (perform CallRedo st)).
    cbn [perform]. rewrite app_assoc in E. rewrite (redo_push _ _ _ E). cbn [snd].
    match goal with |- context [run _ ?s] => set (st1 := s) end.
    destruct (IH st1 l eq_refl) as (H1 & H2 & H3).
    rewrite H1, H2, H3. subst st1. cbn [history executed_ stdout].
    rewrite rev_app_distr, length_app, execute_action_one_line, <- app_assoc. cbn.
    repeat split; lia.
Qed.

(** X8.  Undoing everything, then redoing everything.  After any sequence
    of calls on a fresh history, as many undos as the history has trades
    empty the undo stack, put the trades on the redo stack newest first,
    print one line each and take every quantity back to what the Portfolio
    held at the start; as many redos then give the same two stacks and the
    same quantities as before the undos. *)
Theorem undo_all_redo_all p0 cs :
  int_quantities p0 ->
  let st := run cs (fresh p0) in
  let n := length (executed_ (history st)) in
  let st1 := run (replicate n CallUndo) st in
  let st2 := run (replicate n CallRedo) st1 in
  executed_ (history st1) = []
  /\ undone_ (history st1) = undone_ (history st) ++ rev (executed_ (history st))
  /\ length (stdout st1) = (length (stdout st) + n)%nat
  /\ (forall s, quantity (portfolio st1) s = quantity p0 s)
  /\ history st2 = history st
  /\ (forall s, quantity (portfolio st2) s = quantity (portfolio st) s).
Proof.
  intros Hp0 st n st1 st2.
  destruct (undo_each (executed_ (history st)) st [] eq_refl) as (U1 & U2 & U3).
  fold n in U1, U2, U3. fold st1 in U1, U2, U3.
  assert (Hn : n = length (rev (executed_ (history st)))) by now rewrite length_rev.
  destruct (redo_each (rev (executed_ (history st))) st1 _ U2) as (R1 & R2 & _).
  rewrite <- Hn in R1, R2. fold st2 in R1, R2. rewrite U1, rev_involutive in R2. cbn in R2.
  assert (Q1 : quantities_replayed p0 st1).
  { subst st1 st. rewrite <- run_app. now apply quantities_replayed_run. }
  assert (Q2 : quantities_replayed p0 st2).
  { subst st2 st1 st. rewrite <- !run_app. now apply quantities_replayed_run. }
  assert (Q0 : quantities_replayed p0 st) by now apply quantities_replayed_run.
  repeat split; try assumption.
  - intros s. rewrite <- (Q1 s), U1. reflexivity.
  - destruct (history st2), (history st). cbn in *. now subst.
  - intros s. rewrite <- (Q2 s), <- (Q0 s), R2. reflexivity.
Qed.

(** The walkthrough, undone and redone. *)
Lemma undo_all_redo_all_walkthrough :
  let st := run walkthrough (fresh (Portfolio_new 1000000)) in
  let st1 := run (replicate 2 CallUndo) st in
  executed_ (history st1) = []
  /\ quantity (portfolio st1) "AAPL" = 0
  /\ history (run (replicate 2 CallRedo) st1) = history st.
Proof.
  assert (H0 : int_quantities (Portfolio_new 1000000)).
  { intros s. unfold quantity. cbn. rewrite lookup_empty. cbn. unfold int_range. lia. }
  destruct (undo_all_redo_all (Portfolio_new 1000000) walkthrough H0)
    as (H1 & _ & _ & H4 & H5 & _).
  split; [exact H1|]. split; [exact (H4 "AAPL") | exact H5].
Defined.

End UndoAll.

(** ** Approach 2 of the C++ program: type-erased commands *)

Section TypeErased.
Import Printf Modern Vocabulary ModernRest.
Implicit Types (p q : Portfolio).

(** A wrapped command acts on the Portfolio as the trade of approach 1
    with the same fields does. *)
Lemma wrap_action c :
  exists action, forall p,
    Command_execute (wrap c) p = execute_action action p
    /\ Command_undo (wrap c) p = undo_action action p.
Proof.
  destruct c as [[s n pr]|[s n pr]].
  - exists (Buy (BuyTrade.mk s n pr)). intros p. split; reflexivity.
  - exists (Sell (SellTrade.mk s n pr)). intros p. split; reflexivity.
Qed.

(** The Portfolio and the number of lines a loop over commands leaves. *)
Lemma each_fst (f : Command -> Portfolio -> Portfolio * list string) l p out :
  (fold_left (fun '(p, out) c => let '(p', o) := f c p in (p', out ++ o)) l (p, out)).1
  = fold_left (fun p c => (f c p).1) l p.
Proof.
  revert p out. induction l as [|c l IH]; intros p out; [reflexivity|].
  cbn [fold_left]. destruct (f c p) as [p' o]. now rewrite IH.
Qed.

Lemma each_lines (f : Command -> Portfolio -> Portfolio * list string) l p out :
  (forall c p, c ∈ l -> length (f c p).2 = 1%nat) ->
  length (fold_left (fun '(p, out) c => let '(p', o) := f c p in (p', out ++ o))
            l (p, out)).2
  = (length out + length l)%nat.
Proof.
  revert p out. induction l as [|c l IH]; intros p out H; [cbn; lia|].
  cbn [fold_left]. pose proof (H c p ltac:(apply list_elem_of_here)) as Hc.
  destruct (f c p) as [p' o]. rewrite IH.
  - rewrite length_app. cbn in *. lia.
  - intros c' p0 Hin. apply H. now apply list_elem_of_further.
Qed.

Lemma wrap_one_line c p :
  length (Command_execute (wrap c) p).2 = 1%nat
  /\ length (Command_undo (wrap c) p).2 = 1%nat.
Proof. destruct c; split; reflexivity. Qed.

Lemma int_quantities_each cs p :
  int_quantities p ->
  int_quantities (fold_left (fun p c => (Command_execute c p).1) (wrap <$> cs) p).
Proof.
  intros H. induction cs as [|c cs IH] using rev_ind; [exact H|].
  rewrite fmap_app, fold_left_app. cbn [fmap list_fmap fold_left].
  destruct (wrap_action c) as [action Ha]. rewrite (proj1 (Ha _)).
  now apply int_quantities_execute.
Qed.

(** Undoing in reverse order takes the quantities back: it only needs the
    quantities, not the cash, to be those the forward loop left. *)
Lemma undo_reversed_quantities cs p q :
  int_quantities p ->
  (forall s, quantity q s
             = quantity (fold_left (fun p c => (Command_execute c p).1) (wrap <$> cs) p) s) ->
  forall s, quantity (fold_left (fun p c => (Command_undo c p).1) (rev (wrap <$> cs)) q) s
            = quantity p s.
Proof.
  intros Hp. revert q. induction cs as [|c cs IH] using rev_ind; intros q Hq s; [apply Hq|].
  rewrite fmap_app, rev_app_distr. cbn [fmap list_fmap rev app fold_left].
  apply IH. intros s'. specialize (Hq s').
  rewrite fmap_app, fold_left_app in Hq. cbn [fmap list_fmap fold_left] in Hq.
  destruct (wrap_action c) as [action Ha].
  rewrite (proj1 (Ha _)) in Hq. rewrite (proj2 (Ha _)).
  pose proof (int_quantities_each cs p Hp s') as Hr.
  set (p1 := fold_left _ (wrap <$> cs) p) in *.
  rewrite quantity_undo_action, Hq, quantity_execute_action.
  destruct (decide (action_symbol action = s')); [|reflexivity].
  destruct action.
  - rewrite int_wrap_add_sub. now apply int_wrap_id.
  - rewrite int_wrap_sub_add. now apply int_wrap_id.
Qed.

(** X9.  The two loops of part 2 of [main]: executing a vector of
    type-erased commands front to back and undoing it back to front prints
    one line per command each way and takes every quantity back to what
    the Portfolio held before. *)
Theorem erased_round_trip cs p :
  int_quantities p ->
  let done := execute_each (wrap <$> cs) p in
  let back := undo_each_reversed (wrap <$> cs) done.1 in
  (forall s, quantity back.1 s = quantity p s)
  /\ length done.2 = length cs
  /\ length back.2 = length cs.
Proof.
  intros Hp done back. subst back done. unfold execute_each, undo_each_reversed.
  split; [|split].
  - intros s. rewrite !each_fst. apply undo_reversed_quantities; [exact Hp|reflexivity].
  - rewrite each_lines; [cbn; now rewrite length_fmap|].
    intros c p0 Hin. apply list_elem_of_fmap in Hin as (c0 & -> & _).
    apply wrap_one_line.
  - rewrite each_lines; [cbn; now rewrite length_rev, length_fmap|].
    intros c p0 Hin. rewrite list_elem_of_In, <- in_rev, <- list_elem_of_In in Hin.
    apply list_elem_of_fmap in Hin as (c0 & -> & _).
    apply wrap_one_line.
Qed.

(** The commands of [main]: TSLA and NVDA are back at 0, and here the cash
    is back at 500000 too. *)
Lemma erased_round_trip_main :
  let done := execute_each (wrap <$> main_commands) (Portfolio_new 500000) in
  let back := undo_each_reversed (wrap <$> main_commands) done.1 in
  quantity done.1 "TSLA" = 200
  /\ quantity back.1 "TSLA" = 0
  /\ quantity back.1 "NVDA" = 0
  /\ cash_ back.1 = 500000%float.
Proof.
  assert (H0 : int_quantities (Portfolio_new 500000)).
  { intros s. unfold quantity. cbn. rewrite lookup_empty. cbn. unfold int_range. lia. }
  destruct (erased_round_trip main_commands (Portfolio_new 500000) H0) as (Hq & _ & _).
  split; [vm_compute; reflexivity|].
  split; [exact (Hq "TSLA")|]. split; [exact (Hq "NVDA")|].
  vm_compute. reflexivity.
Defined.

End TypeErased.

(** ** The positions listing *)

Section Positions.
Import Printf PureC Relate PureCRest.
Implicit Types (p : Portfolio) (m : Modern.Portfolio) (e : list (string * Z)).

Lemma position_line_some s v :
  v <> 0 ->
  ModernRest.position_line (s, v)
  = Some ("    " +:+ c_str s +:+ ": " +:+ fmt_d v +:+ " shares").
Proof. intros Hv. unfold ModernRest.position_line. now rewrite decide_True. Qed.

Lemma position_line_none s : ModernRest.position_line (s, 0) = None.
Proof. reflexivity. Qed.

(** Entries with quantity 0 print nothing. *)
Lemma position_lines_nonzero e :
  omap ModernRest.position_line e
  = omap ModernRest.position_line (filter (fun x => x.2 <> 0) e).
Proof.
  induction e as [|[s v] e IH]; [reflexivity|].
  rewrite filter_cons. cbn [snd]. destruct (decide (v <> 0)) as [Hv|Hv].
  - cbn [omap list_omap]. rewrite position_line_some by assumption. now rewrite IH.
  - assert (v = 0) as -> by lia. cbn [omap list_omap].
    rewrite position_line_none. exact IH.
Qed.

Lemma quantity_lookup m s v :
  v <> 0 -> Modern.positions_ m !! s = Some v <-> Modern.quantity m s = v.
Proof.
  intros Hv. unfold Modern.quantity.
  destruct (Modern.positions_ m !! s) as [w|]; cbn; split; congruence.
Qed.





(** [portfolio_print] walks the cells in use, in the order they were
    taken. *)
Lemma print_cells_lines p i n :
  length (symbols p) = Z.to_nat MAX_POSITIONS ->
  length (quantities p) = Z.to_nat MAX_POSITIONS ->
  0 <= i -> i + Z.of_nat n <= MAX_POSITIONS ->
  print_cells p i n
  = Ok (omap ModernRest.position_line
          (zip (take n (drop (Z.to_nat i) (symbols p)))
               (take n (drop (Z.to_nat i) (quantities p))))).
Proof.
  intros Hs Hq. revert i. induction n as [|n IH]; intros i Hi Hn; [reflexivity|].
  unfold MAX_POSITIONS in *. cbn [print_cells].
  destruct (lookup_lt_is_Some_2 (symbols p) (Z.to_nat i)) as [s Hsi]; [lia|].
  destruct (lookup_lt_is_Some_2 (quantities p) (Z.to_nat i)) as [v Hvi]; [lia|].
  rewrite (array_get_inside _ _ _ _ v) by (unfold MAX_POSITIONS; (lia || assumption)).
  cbn [mbind outcome_bind].
  rewrite (array_get_inside _ _ _ _ s) by (unfold MAX_POSITIONS; (lia || assumption)).
  rewrite IH by lia.
  rewrite (drop_S _ s _ Hsi), (drop_S _ v _ Hvi).
  replace (Z.to_nat (i + 1)) with (S (Z.to_nat i)) by lia.
  cbn [take zip zip_with omap list_omap].
  destruct (v =? 0) eqn:E.
  - apply Z.eqb_eq in E. subst v. rewrite position_line_none. reflexivity.
  - apply Z.eqb_neq in E. rewrite position_line_some by assumption. reflexivity.
Qed.

Lemma portfolio_print_lines p :
  sized p ->
  portfolio_print p
  = Ok (["  Portfolio:"; "    Cash: $" +:+ fmt_2f (cash p)]
          ++ omap ModernRest.position_line
               (zip (held p) (take (Z.to_nat (count p)) (quantities p)))).
Proof.
  intros (Hs & Hq & Hc). unfold portfolio_print.
  rewrite print_cells_lines by (assumption || lia).
  change (Z.to_nat 0) with 0%nat. rewrite !drop_0. reflexivity.
Qed.

(** The cells that print are the entries that print. *)
Lemma cells_entries p m :
  well_formed p -> same_receiver p m ->
  map_Forall (fun s _ => c_symbol s) (Modern.positions_ m) ->
  filter (fun x => x.2 <> 0) (zip (held p) (take (Z.to_nat (count p)) (quantities p)))
  ≡ₚ filter (fun x => x.2 <> 0) (map_to_list (Modern.positions_ m)).
Proof.
  intros Hwf Hsame Hkeys. pose proof Hwf as [Hsz Hnd Hfit].
  pose proof Hsz as (Hs & Hq & Hc). unfold MAX_POSITIONS in *.
  assert (Hlen : length (held p) = length (take (Z.to_nat (count p)) (quantities p))).
  { rewrite held_length by assumption. rewrite length_take. lia. }
  apply NoDup_Permutation.
  - apply NoDup_filter. apply (NoDup_fmap_1 fst). rewrite fst_zip by lia. exact Hnd.
  - apply NoDup_filter, NoDup_map_to_list.
  - intros [s v]. rewrite !list_elem_of_filter, elem_of_map_to_list. cbn [snd].
    rewrite Forall_forall in Hfit.
    split; intros [Hv Hin]; (split; [exact Hv|]).
    + apply list_elem_of_lookup_1 in Hin as [k Hk].
      apply lookup_zip_with_Some in Hk as (s' & v' & [= <- <-] & Hks & Hkv).
      assert (Hcs : c_symbol s) by (apply Hfit; eapply list_elem_of_lookup_2, Hks).
      apply quantity_lookup; [exact Hv|].
      rewrite <- (same_reading p m s Hwf Hsame Hcs).
      rewrite (reading_held p s k Hwf Hcs Hks).
      apply lookup_take_Some in Hkv as [Hkv _]. now rewrite Hkv.
    + apply quantity_lookup in Hin as Hqs; [|exact Hv].
      assert (Hcs : c_symbol s) by (eapply (map_Forall_lookup_1 _ _ _ _ Hkeys), Hin).
      rewrite <- (same_reading p m s Hwf Hsame Hcs) in Hqs.
      destruct (decide (s ∈ held p)) as [Hheld|Hout];
        [|rewrite (reading_missing p s Hwf Hcs Hout) in Hqs; congruence].
      apply list_elem_of_lookup_1 in Hheld as [k Hk].
      rewrite (reading_held p s k Hwf Hcs Hk) in Hqs.
      pose proof (held_lookup_count p k s Hsz Hk) as Hlt.
      destruct (lookup_lt_is_Some_2 (quantities p) k) as [w Hw]; [lia|].
      rewrite Hw in Hqs. cbn in Hqs. subst w.
      apply (list_elem_of_lookup_2 _ k). apply lookup_zip_with_Some.
      exists s, v. split; [reflexivity|]. split; [exact Hk|].
      apply lookup_take_Some. split; [exact Hw | lia].
Qed.

Lemma action_of_symbol cmd : Vocabulary.action_symbol (action_of cmd) = symbol cmd.
Proof. unfold action_of. now destruct (type cmd). Qed.

Lemma positions_execute_action action m :
  exists v, Modern.positions_ (Modern.execute_action action m).1
            = <[Vocabulary.action_symbol action := v]> (Modern.positions_ m).
Proof. destruct action; eexists; reflexivity. Qed.

Lemma positions_undo_action action m :
  exists v, Modern.positions_ (Modern.undo_action action m).1
            = <[Vocabulary.action_symbol action := v]> (Modern.positions_ m).
Proof. destruct action; eexists; reflexivity. Qed.

Lemma stacks_fit c (st : Modern.State) :
  same_state c st ->
  Forall (fun a => c_symbol (Vocabulary.action_symbol a))
         (Modern.executed_ (Modern.history st) ++ Modern.undone_ (Modern.history st)).
Proof.
  intros [_ _ _ Hex Hun Hfit _ _]. rewrite <- Hex, <- Hun, <- fmap_app.
  apply Forall_fmap. eapply Forall_impl; [exact Hfit|].
  intros cmd Hc. cbn. now rewrite action_of_symbol.
Qed.

(** Every key of the C++ map is a symbol that fits a cell of the C
    Portfolio. *)
Lemma perform_keys call c (st : Modern.State) :
  same_state c st -> call_fits call ->
  map_Forall (fun s _ => c_symbol s) (Modern.positions_ (Modern.portfolio st)) ->
  map_Forall (fun s _ => c_symbol s)
             (Modern.positions_ (Modern.portfolio (Modern.perform (call_of call) st))).
Proof.
  intros Hsame Hcall Hkeys. pose proof (stacks_fit c st Hsame) as Hfit.
  apply Forall_app in Hfit as [Hfe Hfu].
  destruct call as [cmd| |]; cbn [call_of Modern.perform call_fits] in *.
  - rewrite execute_eq. cbn [Modern.portfolio].
    destruct (positions_execute_action (action_of cmd) (Modern.portfolio st)) as [v ->].
    apply map_Forall_insert_2; [now rewrite action_of_symbol | exact Hkeys].
  - destruct (Modern.executed_ (Modern.history st)) as [|a l _] eqn:E using rev_ind.
    + now rewrite undo_empty.
    + rewrite (undo_push st l a E). cbn [snd Modern.portfolio].
      destruct (positions_undo_action a (Modern.portfolio st)) as [v ->].
      apply map_Forall_insert_2; [|exact Hkeys].
      apply Forall_app in Hfe as [_ Ha]. exact (Forall_inv Ha).
  - destruct (Modern.undone_ (Modern.history st)) as [|a l _] eqn:E using rev_ind.
    + now rewrite redo_empty.
    + rewrite (redo_push st l a E). cbn [snd Modern.portfolio].
      destruct (positions_execute_action a (Modern.portfolio st)) as [v ->].
      apply map_Forall_insert_2; [|exact Hkeys].
      apply Forall_app in Hfu as [_ Ha]. exact (Forall_inv Ha).
Qed.

Lemma run_keys cs c (st : Modern.State) c' :
  same_state c st -> Forall call_fits cs ->
  run cs c = Ok c' ->
  map_Forall (fun s _ => c_symbol s) (Modern.positions_ (Modern.portfolio st)) ->
  map_Forall (fun s _ => c_symbol s)
             (Modern.positions_ (Modern.portfolio (Modern.run (call_of <$> cs) st))).
Proof.
  revert c st. induction cs as [|call cs IH]; intros c st Hsame Hfits H Hkeys; [exact Hkeys|].
  apply Forall_cons in Hfits as [Hcall Hfits]. cbn [run] in H.
  destruct (perform call c) as [c1|] eqn:P; cbn in H; [|discriminate].
  cbn. apply (IH c1); [|assumption..|].
  - now apply (perform_agrees call c).
  - now apply (perform_keys call c).
Qed.

(** X11.  The two positions listings agree.  After any defined sequence
    of calls in which the cash is never a NaN, [portfolio_print] is defined
    and prints the heading and the cash line [print_positions] prints for
    the same calls in the C++ program, followed by the same position
    lines: in the order the cells were taken, where the C++ program prints
    them in the order of its hash map. *)
Theorem positions_agree cs h cash0 c e :
  well_sized h -> Forall call_fits cs ->
  cash_never_nan (call_of <$> cs) (Modern.fresh (Modern.Portfolio_new cash0)) = true ->
  run cs (fresh h (portfolio_init cash0)) = Ok c ->
  let m := Modern.portfolio (Modern.run (call_of <$> cs)
                               (Modern.fresh (Modern.Portfolio_new cash0))) in
  ModernRest.traversal m e ->
  exists cells,
    portfolio_print (portfolio c) = Ok (take 2 (ModernRest.print_positions e m) ++ cells)
    /\ cells ≡ₚ drop 2 (ModernRest.print_positions e m).
Proof.
  intros Hsz Hfits Hnan H m He.
  pose proof (run_agrees cs _ _ c (fresh_agrees h cash0 Hsz) Hfits H) as Hsame.
  pose proof (run_keys cs _ _ c (fresh_agrees h cash0 Hsz) Hfits H
                ltac:(apply map_Forall_empty)) as Hkeys.
  fold m in Hkeys. destruct Hsame as [_ Hwf Hrec _ _ _ _ _]. fold m in Hrec.
  eexists. split.
  - rewrite portfolio_print_lines by apply Hwf.
    unfold ModernRest.print_positions. cbn [take app]. destruct Hrec as [-> _]. reflexivity.
  - unfold ModernRest.print_positions. cbn [drop app].
    unfold ModernRest.traversal in He. rewrite He.
    rewrite position_lines_nonzero.
    rewrite (position_lines_nonzero (map_to_list (Modern.positions_ m))).
    apply omap_Permutation. now apply cells_entries.
Qed.

(** The listing after the walkthrough: MSFT, sold and undone, has a cell
    and an entry but no line. *)
Lemma positions_agree_walkthrough :
  exists c cells,
    run walkthrough (fresh zeroed (portfolio_init 1000000)) = Ok c
    /\ portfolio_print (portfolio c)
       = Ok ("  Portfolio:" :: "    Cash: $974437.50" :: cells)
    /\ cells ≡ₚ ["    AAPL: 100 shares"; "    GOOGL: 50 shares"].
Proof.
  destruct (run walkthrough (fresh zeroed (portfolio_init 1000000))) as [c|f] eqn:E;
    [|vm_compute in E; discriminate E].
  destruct (positions_agree walkthrough zeroed 1000000 c
              (map_to_list (Modern.positions_
                 (Modern.portfolio (Modern.run (call_of <$> walkthrough)
                    (Modern.fresh (Modern.Portfolio_new 1000000))))))
              zeroed_well_sized walkthrough_fits ltac:(vm_compute; reflexivity) E
              (reflexivity _))
    as (cells & Hprint & Hperm).
  exists c, cells. split; [reflexivity|].
  match type of Hprint with
  | _ = Ok (take 2 ?l ++ _) =>
      replace l with ["  Portfolio:"; "    Cash: $974437.50"; "    GOOGL: 50 shares";
                      "    AAPL: 100 shares"] in Hprint, Hperm
        by (vm_compute; reflexivity)
  end.
  split; [exact Hprint|]. rewrite Hperm. apply perm_swap.
Defined.

End Positions.

(** ** Commands as the C constructors build them *)

Section Constructors.
Import Printf PureC Relate.
Implicit Types (s : string) (cmd : TradeCommand).




(** X13.  The descriptions agree and fit their buffer: [cmd_describe]
    into a [char[128]] writes the characters of the [std::string] that
    [action_description] returns for the same trade, at most 127 of
    them. *)
Theorem descriptions_agree cmd :
  cmd_describe cmd 128 = c_str (Modern.action_description (action_of cmd))
  /\ (String.length (cmd_describe cmd 128) <= 127)%nat
  /\ (String.length (Modern.action_description (action_of cmd)) <= 127)%nat.
Proof.
  split; [apply describe_agrees|]. split.
  - unfold cmd_describe, snprintf. apply prefix_length.
  - unfold action_of. destruct (type cmd); cbn [Modern.action_description];
      unfold Modern.BuyTrade.description, Modern.SellTrade.description, snprintf;
      apply prefix_length.
Qed.

End Constructors.

(** ** What undo and redo need *)

Section UndoRedoDefined.
Import Printf PureC Relate.
Implicit Types (cmd : TradeCommand).

Lemma held_within_capacity p :
  well_formed p -> (length (remove_dups (held p)) <= 32)%nat.
Proof.
  intros [Hsz _ _]. pose proof (held_length p Hsz) as Hl.
  destruct Hsz as (_ & _ & Hc). unfold MAX_POSITIONS in Hc.
  assert (Hle : (length (remove_dups (held p)) <= length (held p))%nat).
  { apply submseteq_length, NoDup_submseteq; [apply NoDup_remove_dups|].
    intros x. apply elem_of_remove_dups. }
  lia.
Qed.

Lemma undo_returns c (st : Modern.State) r c' :
  same_state c st -> history_undo c = Ok (r, c') ->
  r = if (Modern.undo st).1 then 1 else 0.
Proof.
  intros Hsame U. pose proof Hsame as [Hcap _ _ Hex _ _ _ _].
  destruct (history_undo_inv _ _ _ Hcap U)
    as [(-> & _ & E)|(-> & cmd & _ & _ & _ & _ & _ & E & _)].
  - rewrite undo_empty; [reflexivity|]. now rewrite <- Hex, E.
  - rewrite E, fmap_app in Hex. cbn in Hex.
    now rewrite (undo_push st _ _ (eq_sym Hex)).
Qed.

Lemma redo_returns c (st : Modern.State) r c' :
  same_state c st -> history_redo c = Ok (r, c') ->
  r = if (Modern.redo st).1 then 1 else 0.
Proof.
  intros Hsame U. pose proof Hsame as [Hcap _ _ _ Hun _ _ _].
  destruct (history_redo_inv _ _ _ Hcap U)
    as [(-> & _ & E)|(-> & cmd & _ & _ & _ & _ & _ & E & _)].
  - rewrite redo_empty; [reflexivity|]. now rewrite <- Hun, E.
  - rewrite E, fmap_app in Hun. cbn in Hun.
    now rewrite (redo_push st _ _ (eq_sym Hun)).
Qed.

(** X14.  Undo and redo never fail.  In any state the C program reaches
    by defined calls, [history_undo] and [history_redo] are defined: the
    array they push to has room because the other one is not empty, and the
    symbol they adjust has a cell already.  They return 1 where the C++
    [undo] and [redo] return true and 0 where they return false. *)
Theorem undo_redo_always_defined cs h cash0 c :
  well_sized h -> Forall call_fits cs ->
  run cs (fresh h (portfolio_init cash0)) = Ok c ->
  let st := Modern.run (call_of <$> cs) (Modern.fresh (Modern.Portfolio_new cash0)) in
  (exists c', history_undo c = Ok (if (Modern.undo st).1 then 1 else 0, c'))
  /\ (exists c', history_redo c = Ok (if (Modern.redo st).1 then 1 else 0, c')).
Proof.
  intros Hsz Hfits H st.
  pose proof (run_agrees cs _ _ c (fresh_agrees h cash0 Hsz) Hfits H) as Hsame.
  fold st in Hsame.
  pose proof Hsame as [Hcap Hwf _ _ _ _ _ _].
  destruct (stack_lengths _ Hcap) as [Le Lu].
  destruct Hcap as (_ & He & Hu & Hsum). unfold MAX_HISTORY in Hsum.
  assert (Hbud : forall call, executes [call] = 0%nat ->
            exists c', perform call c = Ok c').
  { intros call Hcall0.
    apply (perform_defined (held (portfolio c)) call c st Hsame).
    - destruct call; [discriminate Hcall0 | exact I | exact I].
    - rewrite Hcall0, Le, Lu. lia.
    - auto.
    - destruct call; [discriminate Hcall0 | |]; intros x Hx; now apply elem_of_nil in Hx.
    - now apply held_within_capacity. }
  split.
  - destruct (Hbud CallUndo eq_refl) as [c' P]. cbn [perform] in P.
    destruct (history_undo c) as [[r c1]|] eqn:U; [|discriminate P].
    exists c1. now rewrite (undo_returns c st r c1 Hsame U).
  - destruct (Hbud CallRedo eq_refl) as [c' P]. cbn [perform] in P.
    destruct (history_redo c) as [[r c1]|] eqn:U; [|discriminate P].
    exists c1. now rewrite (redo_returns c st r c1 Hsame U).
Qed.

(** After 64 trades the undo has room in [undone], and a second redo finds
    nothing. *)
Lemma undo_redo_always_defined_full :
  (exists c', history_undo full = Ok (1, c'))
  /\ (exists c', history_redo full = Ok (0, c')).
Proof.
  destruct (undo_redo_always_defined (replicate 64 (CallExecute one_share)) zeroed 1000000
              full zeroed_well_sized
              ltac:(apply Forall_replicate; vm_compute; reflexivity)
              ltac:(vm_compute; reflexivity)) as [[c1 H1] [c2 H2]].
  match type of H1 with
  | context [if ?b then _ else _] => replace b with true in H1 by (vm_compute; reflexivity)
  end.
  match type of H2 with
  | context [if ?b then _ else _] => replace b with false in H2 by (vm_compute; reflexivity)
  end.
  split; [exists c1; exact H1 | exists c2; exact H2].
Defined.

(** X15.  The C history keeps its commands.  On a history whose counts
    are within the arrays, [history_execute] appends its command to the
    executed stack and empties the undone stack, and every defined
    [history_undo] or [history_redo], whatever it returns, leaves the
    executed stack followed by the reversed undone stack as it was. *)
Theorem history_commands_conserved c :
  within_capacity (history c) ->
  (forall cmd c',
     history_execute cmd c = Ok c' ->
     executed_stack (history c') = executed_stack (history c) ++ [cmd]
     /\ undone_stack (history c') = [])
  /\ (forall r c',
        history_undo c = Ok (r, c') \/ history_redo c = Ok (r, c') ->
        executed_stack (history c') ++ rev (undone_stack (history c'))
        = executed_stack (history c) ++ rev (undone_stack (history c))).
Proof.
  intros Hcap. split.
  - intros cmd c' H.
    destruct (history_execute_inv _ _ _ Hcap H) as (_ & _ & _ & _ & _ & He & Hu).
    now split.
  - intros r c' [H|H].
    + destruct (history_undo_inv _ _ _ Hcap H)
        as [(_ & -> & _)|(_ & cmd & _ & _ & _ & _ & _ & -> & ->)]; [reflexivity|].
      now rewrite rev_app_distr, <- app_assoc.
    + destruct (history_redo_inv _ _ _ Hcap H)
        as [(_ & -> & _)|(_ & cmd & _ & _ & _ & _ & _ & -> & ->)]; [reflexivity|].
      now rewrite rev_app_distr, <- app_assoc.
Qed.

(** An undo on the full history. *)
Lemma history_commands_conserved_full :
  exists r c',
    history_undo full = Ok (r, c')
    /\ executed_stack (history c') ++ rev (undone_stack (history c'))
       = replicate 64 one_share.
Proof.
  destruct (history_undo full) as [[r c1]|f] eqn:U; [|vm_compute in U; discriminate U].
  exists r, c1. split; [reflexivity|].
  rewrite (proj2 (history_commands_conserved full
                    ltac:(repeat split; vm_compute; (reflexivity || discriminate)))
                 r c1 (or_introl U)).
  vm_compute. reflexivity.
Defined.

End UndoRedoDefined.
